(** * The relay dashboard's event ingestion: [src/App.js]

    A shallow embedding of the [App] component's effect: the WebSocket
    handlers ([onopen], [onmessage], [onerror], [onclose]), the NIP-11
    metadata fetch, the effect's cleanup, and the table of event kinds.

    React state, the socket, the console and the issued HTTP requests are the
    fields of one [World]; a handler is a computation of the monad [Js], which
    threads the world and may complete abruptly with a JavaScript error. *)

From Stdlib Require Import Ascii.
From stdpp Require Import gmap strings list pretty.

Set Warnings "-register-all".

(** * JavaScript values born from JSON

    [JSON.parse] returns [null], a boolean, a number, a string, an array or a
    plain object whose members are own data properties.  Numbers are the
    integers (the protocol's [kind] and [created_at]; the handlers never
    compute with a number, they test a [length] against zero).  A property
    that is absent reads as [undefined], which is [None] below. *)

Inductive json : Type :=
  | JNull
  | JBool (b : bool)
  | JNumber (n : Z)
  | JString (s : string)
  | JArray (elements : list json)
  | JObject (members : gmap string json).

Abbreviation undefined := (@None json).

Inductive JsError : Type :=
  | SyntaxError
  | TypeError
  | InvalidStateError.

(** A completion: normal with a value; abrupt with a thrown error; or, for
    a handler, returned with an update left to React that throws when React
    runs it.  React runs a queued update in the render that follows the
    handler, so a deferred error is raised by that render and not by the
    handler. *)
Inductive Completion (A : Type) : Type :=
  | Normal (a : A)
  | Throw (e : JsError)
  | Deferred (e : JsError).
Arguments Normal {A} a.
Arguments Throw {A} e.
Arguments Deferred {A} e.

Global Instance Completion_ret : MRet Completion := @Normal.
Global Instance Completion_bind : MBind Completion := λ A B f c,
  match c with
  | Normal a => f a
  | Throw e => Throw e
  | Deferred e => Deferred e
  end.

(** [ToBoolean], as [!x] and [a ? b : c] apply it. *)
Definition ToBoolean (v : option json) : bool :=
  match v with
  | None => false
  | Some JNull => false
  | Some (JBool b) => b
  | Some (JNumber n) => negb (n =? 0)%Z
  | Some (JString s) => negb (String.eqb s "")
  | Some (JArray _) => true
  | Some (JObject _) => true
  end.

(** [v === s] for a string literal [s]: no coercion, so only a string equal
    to [s] passes. *)
Definition strict_equals (v : option json) (s : string) : bool :=
  match v with
  | Some (JString t) => String.eqb t s
  | _ => false
  end.

(** Property keys: [data[0]] and [data[2]] are [Index], [data.length] and
    the destructured [id], [kind], [created_at], [content] are [Name]. *)
Inductive PropertyKey : Type :=
  | Index (i : nat)
  | Name (s : string).

Definition key_string (k : PropertyKey) : string :=
  match k with
  | Index i => pretty i
  | Name s => s
  end.

(** [v[k]] for a value that is neither [undefined] nor [null].  Arrays and
    strings answer [length] and their indices; an object answers its own
    members, an index through its decimal spelling.  No prototype defines one
    of the keys this program reads other than [length], so every other read is
    [undefined]. *)
Definition GetV (v : json) (k : PropertyKey) : option json :=
  match v with
  | JNull => None
  | JBool _ => None
  | JNumber _ => None
  | JString s =>
      match k with
      | Index i =>
          if (i <? String.length s)%nat then Some (JString (String.substring i 1 s))
          else None
      | Name n =>
          if String.eqb n "length" then Some (JNumber (Z.of_nat (String.length s)))
          else None
      end
  | JArray elements =>
      match k with
      | Index i => elements !! i
      | Name n =>
          if String.eqb n "length" then Some (JNumber (Z.of_nat (length elements)))
          else None
      end
  | JObject members => members !! key_string k
  end.

(** A property read [v[k]], and the reads of a destructuring pattern: both
    throw a [TypeError] when [v] is [undefined] or [null]. *)
Definition Get (v : option json) (k : PropertyKey) : Completion (option json) :=
  match v with
  | None => Throw TypeError
  | Some JNull => Throw TypeError
  | Some o => Normal (GetV o k)
  end.

(** * The table of event kinds (App.js, lines 17-84) *)

Record Descriptor : Type := {
  icon : string;
  name : string;
  showContent : option bool;
  contentKey : option string
}.

Definition descriptor (icon name : string) : Descriptor :=
  {| icon := icon; name := name; showContent := None; contentKey := None |}.

Definition supportedEventKinds_entries : list (string * Descriptor) :=
  [
    ("0", descriptor "📝" "Profile Update");
    ("1", {| icon := "💭"; name := "Post";
             showContent := Some true; contentKey := None |});
    ("2", descriptor "📶" "Relay Update");
    ("3", descriptor "🤝" "Following Update");
    ("4", descriptor "🔏" "Encrypted DM");
    ("5", descriptor "🗑" "Deleted Action");
    ("6", descriptor "🔁" "Repost");
    ("7", descriptor "🤙" "Reaction");
    ("40", {| icon := "🧙‍♂️"; name := "Channel Creation";
              showContent := Some true; contentKey := Some "name" |});
    ("41", {| icon := "🪄"; name := "Channel Update";
              showContent := Some true; contentKey := Some "name" |});
    ("42", {| icon := "📢"; name := "Channel Message";
              showContent := Some true; contentKey := None |});
    ("43", descriptor "🙈" "Hid Message");
    ("44", descriptor "🙊" "Muted User");
    ("22242", descriptor "🔓" "Authenticated Relay");
    ("other", descriptor "🛠" "Other Action")
  ].

(** The object literal, as a map from property keys. *)
Definition supportedEventKinds : gmap string Descriptor :=
  list_to_map supportedEventKinds_entries.

Definition eventsToRenderLimit : Z := 300.

(** * The page's location and the relay's two URLs (lines 89-97) *)

Record Location : Type := {
  protocol : string;
  hostname : string;
  port : string
}.

Definition relayPort (location : Location) : string := port location.

Definition webSocketProtocol (location : Location) : string :=
  if String.eqb (protocol location) "https:" then "wss:" else "ws:".

Definition webSocketRelayUrl (location : Location) : string :=
  webSocketProtocol location +:+ "//" +:+ hostname location
    +:+ ":" +:+ relayPort location.

Definition HttpRelayUrl (location : Location) : string :=
  protocol location +:+ "//" +:+ hostname location
    +:+ ":" +:+ relayPort location.

(** * Texts on the wire

    [JSON.parse] and [JSON.stringify] are the platform's.  A text is read up
    to what [JSON.parse] makes of it: either it spells a JSON value, or it is
    outside the grammar and [JSON.parse] throws a [SyntaxError]. *)

Inductive Text : Type :=
  | NotJSON
  | JSONText (v : json).

Definition JSON_stringify (v : json) : Text := JSONText v.

(** * The world of the component *)

Inductive ReadyState : Type :=
  | CONNECTING
  | OPEN
  | CLOSING
  | CLOSED.

Global Instance ReadyState_eq_dec : EqDecision ReadyState.
Proof. solve_decision. Defined.

(** What a socket was asked to do, oldest first: the frames handed to it
    while open, and the start of the closing handshake. *)
Inductive SocketCall : Type :=
  | Sent (text : Text)
  | CloseStarted.

Record WebSocket : Type := {
  url : string;
  readyState : ReadyState;
  calls : list SocketCall
}.

Record RelayEvent : Type := {
  id : option json;
  kind : option json;
  created_at : option json;
  content : option json
}.

Record Request : Type := {
  resource : string;
  method : string;
  headers : list (string * string)
}.

(** The four [useState] cells of [App] (lines 101-107), the effect's socket,
    the calls of [console.error] and the calls of [fetch], oldest first. *)
Record World : Type := {
  events : list RelayEvent;
  isConnected : bool;
  hasFetchedAllEvents : bool;
  relayInformationDocument : json;
  socket : WebSocket;
  console : list (string * json);
  requests : list Request
}.

Definition with_events (l : list RelayEvent) (w : World) : World :=
  {| events := l; isConnected := isConnected w;
     hasFetchedAllEvents := hasFetchedAllEvents w;
     relayInformationDocument := relayInformationDocument w;
     socket := socket w; console := console w; requests := requests w |}.

Definition with_isConnected (b : bool) (w : World) : World :=
  {| events := events w; isConnected := b;
     hasFetchedAllEvents := hasFetchedAllEvents w;
     relayInformationDocument := relayInformationDocument w;
     socket := socket w; console := console w; requests := requests w |}.

Definition with_hasFetchedAllEvents (b : bool) (w : World) : World :=
  {| events := events w; isConnected := isConnected w;
     hasFetchedAllEvents := b;
     relayInformationDocument := relayInformationDocument w;
     socket := socket w; console := console w; requests := requests w |}.

Definition with_relayInformationDocument (doc : json) (w : World) : World :=
  {| events := events w; isConnected := isConnected w;
     hasFetchedAllEvents := hasFetchedAllEvents w;
     relayInformationDocument := doc;
     socket := socket w; console := console w; requests := requests w |}.

Definition with_socket (s : WebSocket) (w : World) : World :=
  {| events := events w; isConnected := isConnected w;
     hasFetchedAllEvents := hasFetchedAllEvents w;
     relayInformationDocument := relayInformationDocument w;
     socket := s; console := console w; requests := requests w |}.

Definition with_console (c : list (string * json)) (w : World) : World :=
  {| events := events w; isConnected := isConnected w;
     hasFetchedAllEvents := hasFetchedAllEvents w;
     relayInformationDocument := relayInformationDocument w;
     socket := socket w; console := c; requests := requests w |}.

(** * The monad of handlers: world passing with abrupt completion *)

Definition Js (A : Type) : Type := World → Completion A * World.

Global Instance Js_ret : MRet Js := λ A a w, (Normal a, w).
Global Instance Js_bind : MBind Js := λ A B f c w,
  match c w with
  | (Normal a, w') => f a w'
  | (Throw e, w') => (Throw e, w')
  | (Deferred e, w') => (Deferred e, w')
  end.

Definition lift {A : Type} (c : Completion A) : Js A := λ w, (c, w).

(** ** React's setters

    A setter takes the next value or an updater of the previous one, and
    queues the update; React runs it in the render that follows the handler.
    Handlers run one at a time and queue one update each, so an update that
    succeeds is written to the cell at the call.  A setter call itself never
    throws: when the updater throws, React suppresses the error at the call,
    the handler goes on and returns, and the error is raised by the
    following render ([Deferred]); the cell keeps its value.  The one setter
    call of this program that is given an updater is the last statement of
    its handler (line 149). *)
Inductive SetStateAction (A : Type) : Type :=
  | Value (a : A)
  | Updater (f : A → Completion A).
Arguments Value {A} a.
Arguments Updater {A} f.

Definition setEvents (action : SetStateAction (list RelayEvent)) : Js unit :=
  λ w,
    match action with
    | Value l => (Normal (), with_events l w)
    | Updater f =>
        match f (events w) with
        | Normal l => (Normal (), with_events l w)
        | Throw e => (Deferred e, w)
        | Deferred e => (Deferred e, w)
        end
    end.

Definition setIsConnected (b : bool) : Js unit :=
  λ w, (Normal (), with_isConnected b w).

Definition setHasFetchedAllEvents (b : bool) : Js unit :=
  λ w, (Normal (), with_hasFetchedAllEvents b w).

Definition setRelayInformationDocument (doc : json) : Js unit :=
  λ w, (Normal (), with_relayInformationDocument doc w).

(** ** The platform: [WebSocket], [console], [JSON] *)

Definition new_WebSocket (u : string) : WebSocket :=
  {| url := u; readyState := CONNECTING; calls := [] |}.

Definition socket_readyState : Js ReadyState :=
  λ w, (Normal (readyState (socket w)), w).

(** [socket.send(text)]: an [InvalidStateError] while connecting, queued
    while open, discarded without an error once closing or closed. *)
Definition socket_send (text : Text) : Js unit :=
  λ w,
    let s := socket w in
    match readyState s with
    | CONNECTING => (Throw InvalidStateError, w)
    | OPEN =>
        (Normal (),
         with_socket {| url := url s; readyState := OPEN;
                        calls := calls s ++ [Sent text] |} w)
    | CLOSING => (Normal (), w)
    | CLOSED => (Normal (), w)
    end.

(** [socket.close()]: starts the closing handshake unless the socket is
    closing or closed already; it never throws without arguments. *)
Definition socket_close : Js unit :=
  λ w,
    let s := socket w in
    match readyState s with
    | CONNECTING | OPEN =>
        (Normal (),
         with_socket {| url := url s; readyState := CLOSING;
                        calls := calls s ++ [CloseStarted] |} w)
    | CLOSING | CLOSED => (Normal (), w)
    end.

(** The browser changes [readyState] before it fires [open] or [close]. *)
Definition socket_becomes (r : ReadyState) : Js unit :=
  λ w,
    let s := socket w in
    (Normal (),
     with_socket {| url := url s; readyState := r; calls := calls s |} w).

Definition console_error (msg : string) (arg : json) : Js unit :=
  λ w, (Normal (), with_console (console w ++ [(msg, arg)]) w).

Definition JSON_parse (text : Text) : Completion json :=
  match text with
  | NotJSON => Throw SyntaxError
  | JSONText v => Normal v
  end.

(** * The effect of [App] (lines 111-189) *)

Section Effect.

(** The page's location, and the identifier that line 116 draws from
    [Math.random] once per run of the effect. *)
Variable location : Location.
Variable subscriptionID : string.

Definition REQ : json :=
  JArray [JString "REQ"; JString subscriptionID;
          JObject {[ "limit" := JNumber 1000 ]}].

Definition CLOSE : json :=
  JArray [JString "CLOSE"; JString subscriptionID].

(** Lines 121-127. *)
Definition onopen : Js unit :=
  setIsConnected true;;
  setEvents (Value []);;
  socket_send (JSON_stringify REQ).

(** Lines 130-155.  The updater handed to [setEvents] destructures
    [data[2]]. *)
Definition onmessage (message_data : Text) : Js unit :=
  data ← lift (JSON_parse message_data);
  data_length ← lift (Get (Some data) (Name "length"));
  if negb (ToBoolean data_length) then
    console_error "Error: No data length" data
  else
    tag ← lift (Get (Some data) (Index 0));
    if strict_equals tag "EOSE" then
      setHasFetchedAllEvents true
    else
      tag ← lift (Get (Some data) (Index 0));
      if strict_equals tag "EVENT" then
        setEvents (Updater (λ prevEvents,
          payload ← Get (Some data) (Index 2);
          id ← Get payload (Name "id");
          kind ← Get payload (Name "kind");
          created_at ← Get payload (Name "created_at");
          content ← Get payload (Name "content");
          mret ({| id := id; kind := kind;
                   created_at := created_at; content := content |}
                  :: prevEvents)))
      else
        mret ().

(** Lines 158-160. *)
Definition onerror : Js unit := setIsConnected false.

(** Lines 163-165. *)
Definition onclose : Js unit := setIsConnected false.

(** Lines 168-178: the request handed to [fetch], the promise it returns,
    and the callback of [then].  A response is read up to its status and
    the text of its body; [fetch] rejects with a [TypeError] when the
    network fails, and the callback does not run then. *)
Definition relay_info_request : Request :=
  {| resource := HttpRelayUrl location;
     method := "GET";
     headers := [("Accept", "application/nostr+json")] |}.

Record Response : Type := {
  status : Z;
  body : Text
}.

Definition ok (response : Response) : bool :=
  (200 <=? status response)%Z && (status response <=? 299)%Z.

Definition response_json (response : Response) : Js json :=
  lift (JSON_parse (body response)).

Inductive Settled : Type :=
  | Rejected
  | Fulfilled (response : Response).

Definition fetch_then (outcome : Settled) : Js unit :=
  match outcome with
  | Rejected => lift (Throw TypeError)
  | Fulfilled response =>
      if ok response then
        relayInfoDoc ← response_json response;
        setRelayInformationDocument relayInfoDoc
      else
        mret ()
  end.

(** Lines 181-188. *)
Definition cleanup : Js unit :=
  state ← socket_readyState;
  if decide (state = OPEN) then
    socket_send (JSON_stringify CLOSE);;
    socket_close
  else
    mret ().

(** What React does once a handler has returned: it renders, running the
    update that the handler queued.  A deferred error is thrown by that
    render; no error boundary catches it, so React unmounts [App], which
    runs the cleanup of the effect.  The cells go with the component; the
    model leaves them as they were. *)
Definition render (handler : Completion unit * World) :
    Completion unit * World :=
  match handler with
  | (Deferred e, w) => (Throw e, (cleanup w).2)
  | (Normal _, _) => handler
  | (Throw _, _) => handler
  end.

(** The world once the component has rendered for the first time and its
    effect has run: the initial values of the four cells, a socket that is
    connecting, and the one call of [fetch]. *)
Definition mounted : World :=
  {| events := [];
     isConnected := false;
     hasFetchedAllEvents := false;
     relayInformationDocument := JObject ∅;
     socket := new_WebSocket (webSocketRelayUrl location);
     console := [];
     requests := [relay_info_request] |}.

(** What happens to the mounted component. *)
Inductive Occurrence : Type :=
  | SocketOpen
  | SocketMessage (message_data : Text)
  | SocketError
  | SocketClose
  | FetchSettled (outcome : Settled)
  | Unmount.

Definition dispatch (o : Occurrence) : Js unit :=
  match o with
  | SocketOpen => socket_becomes OPEN;; onopen
  | SocketMessage message_data => onmessage message_data
  | SocketError => onerror
  | SocketClose => socket_becomes CLOSED;; onclose
  | FetchSettled outcome => fetch_then outcome
  | Unmount => cleanup
  end.

(** The frames of a list handed to [onmessage] in order, for as long as the
    handler returns with its updates done.  The run is followed up to the
    first throw or deferred error, which it reports with the world at that
    point; the frames after it are not part of the run. *)
Fixpoint deliver (frames : list Text) : Js unit :=
  match frames with
  | [] => mret ()
  | frame :: rest => onmessage frame;; deliver rest
  end.

End Effect.

(** * Classification of a kind *)

(** The kinds that the table documents, and the descriptor of [other]. *)
Definition documented_kinds : list Z :=
  [0; 1; 2; 3; 4; 5; 6; 7; 40; 41; 42; 43; 44; 22242]%Z.

Definition other : Descriptor := descriptor "🛠" "Other Action".

(** Modelled from the spec: the lookup with fallback that the components
    [LatestActions] and [TotalBackups] make in [supportedEventKinds]; they
    are imported by App.js but their files are not among the sources.  The
    spec's [classify] is an exact-match lookup of the kind, any kind absent
    from the table resolving to the entry [other].  An integer indexes a
    JavaScript object through its decimal spelling, which [pretty] gives; a
    number of 22 digits or more is spelled with an exponent instead, and is
    no key of the table either. *)
Definition classify (kind : Z) : option Descriptor :=
  match supportedEventKinds !! pretty kind with
  | Some d => Some d
  | None => supportedEventKinds !! "other"
  end.

(** * Frames of the protocol, and what the handler reads in them *)

(** The inbound frames [["EVENT", subscription, payload]] and
    [["EOSE", ...]], as texts. *)
Definition EVENT (subscription payload : json) : Text :=
  JSONText (JArray [JString "EVENT"; subscription; payload]).

Definition EOSE (rest : list json) : Text :=
  JSONText (JArray (JString "EOSE" :: rest)).

(** The entry that the updater of line 151 builds from a payload. *)
Definition event_of (payload : json) : RelayEvent :=
  {| id := GetV payload (Name "id");
     kind := GetV payload (Name "kind");
     created_at := GetV payload (Name "created_at");
     content := GetV payload (Name "content") |}.

(** The payload of a decoded frame that the handler takes for an event
    and can destructure: the frame's [length] is truthy, its element 0 is
    ["EVENT"], and its element 2 is there and is not [null]. *)
Definition EVENT_payload (data : json) : option json :=
  if ToBoolean (GetV data (Name "length"))
     && strict_equals (GetV data (Index 0)) "EVENT"
  then
    match GetV data (Index 2) with
    | Some JNull => None
    | payload => payload
    end
  else None.

(** A decoded frame that reaches the updater of line 149 and has nothing,
    or [null], at index 2. *)
Definition payload_missing (data : json) : bool :=
  ToBoolean (GetV data (Name "length"))
  && strict_equals (GetV data (Index 0)) "EVENT"
  && match GetV data (Index 2) with
     | None => true
     | Some JNull => true
     | Some _ => false
     end.

(** Every cell of the world but the console. *)
Definition cells (w : World) :
    list RelayEvent * bool * bool * json * WebSocket * list Request :=
  (events w, isConnected w, hasFetchedAllEvents w,
   relayInformationDocument w, socket w, requests w).

(** A page served over plain HTTP, and two payloads that share an id. *)
Definition umbrel : Location :=
  {| protocol := "http:"; hostname := "umbrel.local"; port := "4848" |}.

Definition note (i : string) (k t : Z) (c : string) : json :=
  JObject (list_to_map [("id", JString i); ("kind", JNumber k);
                        ("created_at", JNumber t); ("content", JString c);
                        ("pubkey", JString "ab"); ("sig", JString "cd")]).

(** Whether a string begins with the letter o, as [other] does and no
    decimal spelling. *)
Definition starts_with_o (s : string) : bool :=
  match s with
  | String c _ => Ascii.eqb c "o"%char
  | EmptyString => false
  end.

(** A decidable proposition, settled by evaluating its decision. *)
Ltac by_computation := apply (bool_decide_unpack _); vm_compute; exact I.

(** A handler, unfolded down to the world it returns. *)
Ltac run_handler :=
  unfold onmessage, onopen, onerror, onclose, cleanup, fetch_then,
    response_json, dispatch, lift, mbind, mret, Js_bind, Js_ret,
    Completion_bind, Completion_ret; simpl.

(** * Decimal spellings never collide with [other] *)

Lemma pretty_N_go_not_o (x : N) (s : string) :
  starts_with_o s = false → starts_with_o (pretty_N_go x s) = false.
Proof.
  revert s. induction (N.lt_wf_0 x) as [x _ IH]. intros s Hs.
  destruct (decide (x = 0)%N) as [->|Hx].
  - by rewrite pretty_N_go_0.
  - rewrite pretty_N_go_step by lia.
    apply IH; [apply N.div_lt; lia|].
    unfold pretty_N_char. by repeat case_match.
Qed.

Lemma pretty_Z_not_o (k : Z) : starts_with_o (pretty k) = false.
Proof.
  assert (HN : ∀ n : N, starts_with_o (pretty n) = false).
  { intros n. unfold pretty, pretty_N. case_decide; [done|].
    by apply pretty_N_go_not_o. }
  destruct k as [|p|p]; [done| apply HN | done].
Qed.

Lemma pretty_Z_ne_other (k : Z) : pretty k ≠ "other".
Proof.
  intros H. pose proof (pretty_Z_not_o k) as Ho. by rewrite H in Ho.
Qed.

Lemma supportedEventKinds_keys :
  (supportedEventKinds_entries).*1 = (pretty <$> documented_kinds) ++ ["other"].
Proof. vm_compute. reflexivity. Qed.

Lemma undocumented_kind_absent (k : Z) :
  k ∉ documented_kinds → supportedEventKinds !! pretty k = None.
Proof.
  intros Hk. apply not_elem_of_list_to_map_1.
  rewrite supportedEventKinds_keys, elem_of_app, list_elem_of_fmap.
  intros [(z & Hz & Hin)|Hin].
  - apply (inj pretty) in Hz. by subst z.
  - apply list_elem_of_singleton in Hin. by destruct (pretty_Z_ne_other k).
Qed.

Lemma documented_kind_present (k : Z) :
  k ∈ documented_kinds →
  ∃ d : Descriptor, supportedEventKinds !! pretty k = Some d ∧ d ≠ other.
Proof.
  unfold documented_kinds. intros Hin.
  repeat (apply elem_of_cons in Hin as [->|Hin];
    [eexists; split; [vm_compute; reflexivity | discriminate]|]).
  by apply elem_of_nil in Hin.
Qed.

Lemma documented_kinds_NoDup : NoDup documented_kinds.
Proof. by_computation. Qed.

(** C7. Classification is total: every integer kind, negative and unassigned
    ones included, is given a descriptor; the fourteen documented kinds
    (0-7, 40-44 and 22242) are given their own entry of the table, which is
    not the descriptor [other], and every other kind is given [other]. *)
Theorem classify_total (k : Z) :
  (∃ d : Descriptor, classify k = Some d)
  ∧ (k ∈ documented_kinds →
     classify k = supportedEventKinds !! pretty k ∧ classify k ≠ Some other)
  ∧ (k ∉ documented_kinds → classify k = Some other)
  ∧ length documented_kinds = 14
  ∧ NoDup documented_kinds.
Proof.
  assert (Hout : k ∉ documented_kinds → classify k = Some other).
  { intros Hk. unfold classify. by rewrite (undocumented_kind_absent k Hk). }
  assert (Hin : k ∈ documented_kinds →
    ∃ d, classify k = Some d ∧ supportedEventKinds !! pretty k = Some d ∧ d ≠ other).
  { intros Hk. destruct (documented_kind_present k Hk) as (d & Hd & Hne).
    exists d. unfold classify. by rewrite Hd. }
  split_and!.
  - destruct (decide (k ∈ documented_kinds)) as [Hk|Hk].
    + destruct (Hin Hk) as (d & Hd & _). by exists d.
    + exists other. by apply Hout.
  - intros Hk. destruct (Hin Hk) as (d & Hd & Hl & Hne).
    rewrite Hd, Hl. split; [done|]. by intros [= ->].
  - done.
  - done.
  - apply documented_kinds_NoDup.
Qed.

(** At the kinds 1 and 22242 of the table, and at the kinds -1 and 8 that it
    lacks. *)
Lemma classify_total_witness :
  classify 1 = supportedEventKinds !! "1"
  ∧ classify 22242 ≠ Some other
  ∧ classify (-1) = Some other
  ∧ classify 8 = Some other.
Proof.
  split_and!.
  - refine (proj1 (proj1 (proj2 (classify_total 1)) _)). by_computation.
  - refine (proj2 (proj1 (proj2 (classify_total 22242)) _)). by_computation.
  - apply (proj1 (proj2 (proj2 (classify_total (-1))))). by_computation.
  - apply (proj1 (proj2 (proj2 (classify_total 8)))). by_computation.
Defined.

(** * The message handler *)

Lemma deliver_cons (frame : Text) (rest : list Text) (w : World) :
  deliver (frame :: rest) w =
  match onmessage frame w with
  | (Normal _, w') => deliver rest w'
  | (Throw e, w') => (Throw e, w')
  | (Deferred e, w') => (Deferred e, w')
  end.
Proof. reflexivity. Qed.

Lemma onmessage_EVENT (subscription payload : json) (w : World) :
  payload ≠ JNull →
  onmessage (EVENT subscription payload) w
  = (Normal (), with_events (event_of payload :: events w) w).
Proof. intros Hp. by destruct payload. Qed.

Lemma onmessage_EOSE (rest : list json) (w : World) :
  onmessage (EOSE rest) w = (Normal (), with_hasFetchedAllEvents true w).
Proof. reflexivity. Qed.

Lemma Get_value (v : json) (k : PropertyKey) :
  v ≠ JNull → Get (Some v) k = Normal (GetV v k).
Proof. by destruct v. Qed.

(** The handler on a text that spells a value other than [null], branch by
    branch. *)
Lemma onmessage_JSONText (data : json) (w : World) :
  data ≠ JNull →
  onmessage (JSONText data) w =
  if negb (ToBoolean (GetV data (Name "length"))) then
    (Normal (),
     with_console (console w ++ [("Error: No data length", data)]) w)
  else if strict_equals (GetV data (Index 0)) "EOSE" then
    (Normal (), with_hasFetchedAllEvents true w)
  else if strict_equals (GetV data (Index 0)) "EVENT" then
    match GetV data (Index 2) with
    | None => (Deferred TypeError, w)
    | Some JNull => (Deferred TypeError, w)
    | Some payload =>
        (Normal (), with_events (event_of payload :: events w) w)
    end
  else
    (Normal (), w).
Proof.
  intros Hnull. unfold onmessage, lift, mbind, Js_bind. cbn [JSON_parse].
  rewrite !Get_value by done.
  destruct (negb (ToBoolean (GetV data (Name "length")))); [done|].
  destruct (strict_equals (GetV data (Index 0)) "EOSE"); [done|].
  destruct (strict_equals (GetV data (Index 0)) "EVENT"); [|done].
  unfold setEvents.
  by destruct (GetV data (Index 2)) as [[]|].
Qed.

(** The handler reads no cell but [events] and writes the console only by
    appending: two worlds that differ in the console alone complete alike
    and still differ in the console alone. *)
Lemma onmessage_cells (frame : Text) (w1 w2 : World) :
  cells w1 = cells w2 →
  (onmessage frame w1).1 = (onmessage frame w2).1
  ∧ cells (onmessage frame w1).2 = cells (onmessage frame w2).2.
Proof.
  destruct w1, w2. unfold cells. simpl. intros [= -> -> -> -> -> ->].
  destruct frame as [|data]; [done|].
  run_handler. unfold setEvents, setHasFetchedAllEvents, console_error.
  repeat (case_match; simplify_eq/=; try done).
Qed.

Lemma deliver_cells (frames : list Text) (w1 w2 : World) :
  cells w1 = cells w2 →
  (deliver frames w1).1 = (deliver frames w2).1
  ∧ cells (deliver frames w1).2 = cells (deliver frames w2).2.
Proof.
  revert w1 w2. induction frames as [|frame rest IH]; intros w1 w2 Hw.
  - done.
  - rewrite !deliver_cons.
    destruct (onmessage_cells frame w1 w2 Hw) as [Hc Hs].
    destruct (onmessage frame w1) as [[[]|e1|e1] w1'],
             (onmessage frame w2) as [[[]|e2|e2] w2']; simpl in *;
      first [discriminate | by apply IH | done].
Qed.

Lemma strict_equals_EVENT_not_EOSE (v : option json) :
  strict_equals v "EVENT" = true → strict_equals v "EOSE" = false.
Proof.
  destruct v as [[]|]; try done. simpl.
  intros Htag. apply String.eqb_eq in Htag. by subst.
Qed.

Lemma onmessage_EVENT_payload (data payload : json) (w : World) :
  EVENT_payload data = Some payload →
  onmessage (JSONText data) w
  = (Normal (), with_events (event_of payload :: events w) w).
Proof.
  unfold EVENT_payload. intros Hpayload.
  assert (Hnull : data ≠ JNull) by (by intros ->).
  rewrite onmessage_JSONText by done.
  destruct (ToBoolean (GetV data (Name "length"))); [|done].
  destruct (strict_equals (GetV data (Index 0)) "EVENT") eqn:Htag; [|done].
  rewrite (strict_equals_EVENT_not_EOSE _ Htag). simpl in *.
  by destruct (GetV data (Index 2)) as [[]|]; simplify_eq.
Qed.

(** C1. Frames tagged ["EVENT"] that carry a payload, handed to the message
    handler in their order of arrival, are all processed, and the event list
    is then the entries built from their payloads, the latest arrival first,
    in front of the entries that were there: one entry per frame, none
    dropped, reordered, merged or deduplicated, whatever the ids of the
    payloads. *)
Theorem events_are_arrivals_reversed
    (frames payloads : list json) (w : World) :
  Forall2 (λ data payload, EVENT_payload data = Some payload)
    frames payloads →
  deliver (JSONText <$> frames) w
  = (Normal (), with_events (rev (event_of <$> payloads) ++ events w) w)
  ∧ length (events (deliver (JSONText <$> frames) w).2)
    = length frames + length (events w).
Proof.
  intros Hall.
  assert (Hrun : deliver (JSONText <$> frames) w
    = (Normal (), with_events (rev (event_of <$> payloads) ++ events w) w)).
  { revert w. induction Hall as [|data payload frames payloads Hp _ IH];
      intros w.
    - by destruct w.
    - rewrite !fmap_cons, deliver_cons.
      rewrite (onmessage_EVENT_payload data payload) by done.
      rewrite IH. cbn [rev]. by rewrite <- app_assoc. }
  split; [done|].
  rewrite Hrun. cbn.
  rewrite length_app, length_rev, length_fmap.
  by rewrite (Forall2_length _ _ _ Hall).
Qed.

(** Two arrivals with the same id, on an empty list: two entries, the later
    arrival first. *)
Lemma events_are_arrivals_reversed_witness :
  deliver [EVENT (JString "sub1") (note "a" 1 100 "hi");
           EVENT (JString "sub1") (note "a" 0 101 "{}")] (mounted umbrel)
  = (Normal (),
     with_events [event_of (note "a" 0 101 "{}");
                  event_of (note "a" 1 100 "hi")] (mounted umbrel)).
Proof.
  refine (proj1 (events_are_arrivals_reversed
    [JArray [JString "EVENT"; JString "sub1"; note "a" 1 100 "hi"];
     JArray [JString "EVENT"; JString "sub1"; note "a" 0 101 "{}"]]
    [note "a" 1 100 "hi"; note "a" 0 101 "{}"] (mounted umbrel) _)).
  repeat constructor.
Defined.

(** C5. A frame tagged ["EOSE"] sets [hasFetchedAllEvents] to true and
    touches nothing else; delivered to a world where the flag is already
    true it changes nothing at all, so any run of such frames leaves the
    world that the first of them left. *)
Theorem EOSE_marks_complete_idempotently
    (first : list json) (further : list (list json)) (w : World) :
  onmessage (EOSE first) w = (Normal (), with_hasFetchedAllEvents true w)
  ∧ hasFetchedAllEvents (onmessage (EOSE first) w).2 = true
  ∧ (hasFetchedAllEvents w = true → onmessage (EOSE first) w = (Normal (), w))
  ∧ deliver (map EOSE further) (onmessage (EOSE first) w).2
    = (Normal (), (onmessage (EOSE first) w).2)
  ∧ deliver (map EOSE (first :: further)) w = onmessage (EOSE first) w.
Proof.
  assert (Hagain : ∀ w', deliver (map EOSE further)
      (with_hasFetchedAllEvents true w')
    = (Normal (), with_hasFetchedAllEvents true w')).
  { induction further as [|rest further IH]; intros w'; [done|].
    cbn [map]. rewrite deliver_cons, onmessage_EOSE.
    exact (IH (with_hasFetchedAllEvents true w')). }
  split_and!; try done.
  - rewrite onmessage_EOSE. destruct w; simpl. by intros ->.
  - rewrite onmessage_EOSE. apply Hagain.
  - cbn [map]. rewrite deliver_cons, onmessage_EOSE. apply Hagain.
Qed.

(** The end-of-stream marker delivered three times after one event. *)
Lemma EOSE_marks_complete_idempotently_witness :
  let w := with_hasFetchedAllEvents true
             (with_events [event_of (note "a" 1 100 "hi")] (mounted umbrel)) in
  onmessage (EOSE [JString "sub1"]) w = (Normal (), w).
Proof.
  refine (proj1 (proj2 (proj2 (EOSE_marks_complete_idempotently
    [JString "sub1"] [] _))) _).
  reflexivity.
Defined.

(** C6. The frame [[]] is logged and dropped: the handler returns normally,
    the console gains the entry and no cell changes; the frames that follow
    are then processed, and they complete and leave the cells exactly as if
    the empty frame had never arrived. *)
Theorem empty_frame_is_logged_and_dropped (frames : list Text) (w : World) :
  onmessage (JSONText (JArray [])) w
  = (Normal (),
     with_console (console w ++ [("Error: No data length", JArray [])]) w)
  ∧ events (onmessage (JSONText (JArray [])) w).2 = events w
  ∧ hasFetchedAllEvents (onmessage (JSONText (JArray [])) w).2
    = hasFetchedAllEvents w
  ∧ deliver (JSONText (JArray []) :: frames) w
    = deliver frames
        (with_console (console w ++ [("Error: No data length", JArray [])]) w)
  ∧ (deliver (JSONText (JArray []) :: frames) w).1 = (deliver frames w).1
  ∧ cells (deliver (JSONText (JArray []) :: frames) w).2
    = cells (deliver frames w).2.
Proof.
  destruct (deliver_cells frames
    (with_console (console w ++ [("Error: No data length", JArray [])]) w) w
    eq_refl) as [Hcompletion Hcells].
  split_and!; try done.
Qed.

(** The spec's scenario: two events and the end-of-stream marker, on a
    connection that has just opened. *)
Example two_events_then_EOSE :
  deliver [EVENT (JString "sub1") (note "a" 1 100 "hi");
           EVENT (JString "sub1") (note "b" 0 101 "{}");
           EOSE [JString "sub1"]]
    (dispatch "sub1" SocketOpen (mounted umbrel)).2
  = (Normal (),
     with_hasFetchedAllEvents true
       (with_events
          [{| id := Some (JString "b"); kind := Some (JNumber 0);
              created_at := Some (JNumber 101);
              content := Some (JString "{}") |};
           {| id := Some (JString "a"); kind := Some (JNumber 1);
              created_at := Some (JNumber 100);
              content := Some (JString "hi") |}]
          (dispatch "sub1" SocketOpen (mounted umbrel)).2)).
Proof. by vm_compute. Qed.

Lemma onmessage_EVENT_short (rest : list json) (w : World) :
  length rest < 2 →
  onmessage (JSONText (JArray (JString "EVENT" :: rest))) w
  = (Deferred TypeError, w).
Proof.
  intros Hlen. destruct rest as [|subscription [|payload rest]];
    [by destruct w | by destruct w | simpl in Hlen; lia].
Qed.

(** C10. The error handler and the close handler each complete normally,
    set [isConnected] to false and leave the event list,
    [hasFetchedAllEvents], the relay information document, the socket, the
    console and the requests as they were. *)
Theorem error_and_close_only_disconnect (w : World) :
  onerror w = (Normal (), with_isConnected false w)
  ∧ onclose w = (Normal (), with_isConnected false w)
  ∧ isConnected (with_isConnected false w) = false
  ∧ events (with_isConnected false w) = events w
  ∧ hasFetchedAllEvents (with_isConnected false w) = hasFetchedAllEvents w
  ∧ relayInformationDocument (with_isConnected false w)
    = relayInformationDocument w
  ∧ socket (with_isConnected false w) = socket w
  ∧ console (with_isConnected false w) = console w
  ∧ requests (with_isConnected false w) = requests w.
Proof. by split_and!. Qed.

(** C4, as the handler has it: it holds no fault of its own.  A text that
    is not JSON makes [JSON.parse] throw, and the [SyntaxError] leaves the
    handler with nothing logged.  A text that spells a value other than
    [null] is handled to a normal completion unless it reaches the updater
    without a payload (C9); when its [length] is falsy it is logged and
    dropped, no cell changing. *)
Theorem onmessage_contains_decoded_frames (data : json) (w : World) :
  onmessage NotJSON w = (Throw SyntaxError, w)
  ∧ (data ≠ JNull → payload_missing data = false →
     ∃ w', onmessage (JSONText data) w = (Normal (), w'))
  ∧ (data ≠ JNull → ToBoolean (GetV data (Name "length")) = false →
     onmessage (JSONText data) w
     = (Normal (),
        with_console (console w ++ [("Error: No data length", data)]) w)).
Proof.
  split_and!.
  - reflexivity.
  - intros Hnull Hpayload. rewrite onmessage_JSONText by done.
    unfold payload_missing in Hpayload.
    destruct (ToBoolean (GetV data (Name "length"))); simpl in *; [|eauto].
    destruct (strict_equals (GetV data (Index 0)) "EOSE"); [eauto|].
    destruct (strict_equals (GetV data (Index 0)) "EVENT"); [|eauto].
    destruct (GetV data (Index 2)) as [[]|]; simpl in *; by eauto.
  - intros Hnull Hlength. rewrite onmessage_JSONText by done.
    by rewrite Hlength.
Qed.

(** A number, whose [length] is undefined, is logged and dropped. *)
Lemma onmessage_contains_decoded_frames_witness :
  onmessage (JSONText (JNumber 7)) (mounted umbrel)
  = (Normal (),
     with_console [("Error: No data length", JNumber 7)] (mounted umbrel)).
Proof.
  refine (proj2 (proj2 (onmessage_contains_decoded_frames
    (JNumber 7) (mounted umbrel))) _ _); [discriminate | reflexivity].
Defined.

(** C4 as stated fails: a text outside the JSON grammar is neither logged
    nor dropped, the handler completes abruptly with the [SyntaxError] of
    [JSON.parse]; and the text [null] passes the parse and makes the read
    of [data.length] throw a [TypeError]. *)
Lemma onmessage_propagates_SyntaxError :
  onmessage NotJSON (mounted umbrel) = (Throw SyntaxError, mounted umbrel)
  ∧ onmessage (JSONText JNull) (mounted umbrel)
    = (Throw TypeError, mounted umbrel)
  ∧ console (mounted umbrel) = [].
Proof. by split_and!. Qed.

(** * Opening and tearing down *)

Section Connection.

Variable subscriptionID : string.

Lemma socket_send_open (text : Text) (w : World) :
  readyState (socket w) = OPEN →
  socket_send text w
  = (Normal (),
     with_socket {| url := url (socket w); readyState := OPEN;
                    calls := calls (socket w) ++ [Sent text] |} w).
Proof. intros Hstate. unfold socket_send. by rewrite Hstate. Qed.

(** C2, as the handler has it: run on a socket that has opened, the handler
    empties the event list, sets [isConnected] to true and sends the one
    frame [["REQ", subscriptionID, {limit: 1000}]], whatever the cells held;
    [hasFetchedAllEvents] keeps the value it had. *)
Theorem open_resets_events_and_subscribes (w : World) :
  readyState (socket w) = OPEN →
  onopen subscriptionID w
  = (Normal (),
     {| events := [];
        isConnected := true;
        hasFetchedAllEvents := hasFetchedAllEvents w;
        relayInformationDocument := relayInformationDocument w;
        socket :=
          {| url := url (socket w);
             readyState := OPEN;
             calls := calls (socket w) ++
               [Sent (JSONText
                 (JArray [JString "REQ"; JString subscriptionID;
                          JObject {[ "limit" := JNumber 1000 ]}]))] |};
        console := console w;
        requests := requests w |}).
Proof.
  intros Hstate. unfold onopen, mbind, Js_bind.
  unfold setIsConnected, setEvents.
  by rewrite socket_send_open.
Qed.

Lemma cleanup_open (w : World) :
  readyState (socket w) = OPEN →
  cleanup subscriptionID w
  = (Normal (),
     with_socket
       {| url := url (socket w);
          readyState := CLOSING;
          calls := calls (socket w) ++
            [Sent (JSON_stringify (CLOSE subscriptionID)); CloseStarted] |}
       w).
Proof.
  intros Hstate. unfold cleanup, socket_readyState. run_handler.
  rewrite Hstate. simpl.
  unfold socket_send, socket_close. simpl. rewrite Hstate. simpl.
  by rewrite <- app_assoc.
Qed.

Lemma cleanup_not_open (w : World) :
  readyState (socket w) ≠ OPEN → cleanup subscriptionID w = (Normal (), w).
Proof.
  intros Hstate. unfold cleanup, socket_readyState. run_handler.
  by destruct (readyState (socket w)).
Qed.

(** C3, as the cleanup has it: on an open socket it sends the one frame
    [["CLOSE", subscriptionID]] and then starts closing; on a socket in
    any other state it sends nothing and does not call [close], the world
    staying as it was.  It completes normally in both cases. *)
Theorem cleanup_unsubscribes_when_open (w : World) :
  (readyState (socket w) = OPEN →
   cleanup subscriptionID w
   = (Normal (),
      with_socket
        {| url := url (socket w);
           readyState := CLOSING;
           calls := calls (socket w) ++
             [Sent (JSONText
                (JArray [JString "CLOSE"; JString subscriptionID]));
              CloseStarted] |} w))
  ∧ (readyState (socket w) ≠ OPEN →
     cleanup subscriptionID w = (Normal (), w)).
Proof. split; [apply cleanup_open | apply cleanup_not_open]. Qed.

End Connection.

(** Teardown of a connection that has opened. *)
Lemma cleanup_unsubscribes_when_open_witness :
  calls (socket (cleanup "sub1" (dispatch "sub1" SocketOpen (mounted umbrel)).2).2)
  = [Sent (JSONText (JArray [JString "REQ"; JString "sub1";
                             JObject {[ "limit" := JNumber 1000 ]}]));
     Sent (JSONText (JArray [JString "CLOSE"; JString "sub1"]));
     CloseStarted].
Proof.
  rewrite (proj1 (cleanup_unsubscribes_when_open "sub1"
    (dispatch "sub1" SocketOpen (mounted umbrel)).2) eq_refl).
  reflexivity.
Defined.

(** The first open of a mounted component: the browser has set the state
    of the socket to [OPEN]. *)
Lemma open_resets_events_and_subscribes_witness :
  onopen "sub1" (socket_becomes OPEN (mounted umbrel)).2
  = (dispatch "sub1" SocketOpen (mounted umbrel)).
Proof.
  rewrite (open_resets_events_and_subscribes "sub1"
    (socket_becomes OPEN (mounted umbrel)).2 eq_refl).
  reflexivity.
Defined.

(** C9, as the program has it.  On an array frame tagged ["EVENT"] with
    fewer than three elements, such as [["EVENT","sub1"]], the handler
    itself returns: the frame is not logged and dropped, and the updater
    that the handler has handed to [setEvents] throws a [TypeError] when
    React runs it, destructuring the absent payload at index 2.  The render
    that follows the handler fails with that error, and React unmounts
    [App], which runs the cleanup of the effect; nothing is written to the
    console or to the event list. *)
Theorem EVENT_without_payload_fails_at_render
    (subscriptionID : string) (rest : list json) (w : World) :
  length rest < 2 →
  onmessage (JSONText (JArray (JString "EVENT" :: rest))) w
  = (Deferred TypeError, w)
  ∧ render subscriptionID
      (onmessage (JSONText (JArray (JString "EVENT" :: rest))) w)
    = (Throw TypeError, (cleanup subscriptionID w).2)
  ∧ console (cleanup subscriptionID w).2 = console w
  ∧ events (cleanup subscriptionID w).2 = events w.
Proof.
  intros Hlen. rewrite onmessage_EVENT_short by done.
  split_and!; try done;
    (destruct (decide (readyState (socket w) = OPEN)) as [Hopen|Hother];
     [by rewrite cleanup_open | by rewrite cleanup_not_open]).
Qed.

(** The frame [["EVENT","sub1"]] on a connection that has opened: the
    render fails, and the cleanup unsubscribes and closes. *)
Lemma EVENT_without_payload_fails_at_render_witness :
  render "sub1"
    (onmessage (JSONText (JArray [JString "EVENT"; JString "sub1"]))
       (dispatch "sub1" SocketOpen (mounted umbrel)).2)
  = (Throw TypeError,
     (cleanup "sub1" (dispatch "sub1" SocketOpen (mounted umbrel)).2).2).
Proof.
  refine (proj1 (proj2 (EVENT_without_payload_fails_at_render "sub1"
    [JString "sub1"] (dispatch "sub1" SocketOpen (mounted umbrel)).2 _))).
  simpl. lia.
Defined.

(** C9 as stated fails: the handler does not throw on [["EVENT","sub1"]],
    nor on any other array frame tagged ["EVENT"] with fewer than three
    elements; it returns, and the error is left to the render. *)
Lemma EVENT_without_payload_handler_returns :
  onmessage (JSONText (JArray [JString "EVENT"; JString "sub1"]))
    (mounted umbrel)
  = (Deferred TypeError, mounted umbrel)
  ∧ ¬ (∃ (rest : list json) (w : World) (e : JsError),
         length rest < 2
         ∧ (onmessage (JSONText (JArray (JString "EVENT" :: rest))) w).1
           = Throw e).
Proof.
  split; [reflexivity|].
  intros (rest & w & e & Hlen & Hthrow).
  by rewrite onmessage_EVENT_short in Hthrow.
Qed.

(** C2 as stated fails: opening does not reset [hasFetchedAllEvents].  On
    the world that an open, one event and the end-of-stream marker leave,
    where the flag is true, the handler empties the list and leaves the flag
    true. *)
Lemma open_keeps_hasFetchedAllEvents :
  let w := (deliver [EVENT (JString "sub1") (note "a" 1 100 "hi");
                     EOSE [JString "sub1"]]
              (dispatch "sub1" SocketOpen (mounted umbrel)).2).2 in
  readyState (socket w) = OPEN
  ∧ hasFetchedAllEvents w = true
  ∧ (onopen "sub1" w).1 = Normal ()
  ∧ events (onopen "sub1" w).2 = []
  ∧ hasFetchedAllEvents (onopen "sub1" w).2 = true.
Proof. by split_and!. Qed.

(** C3 as stated fails: torn down while it is still connecting, the socket
    is not closed; it stays as [new WebSocket] made it. *)
Lemma cleanup_leaves_connecting_socket :
  cleanup "sub1" (mounted umbrel) = (Normal (), mounted umbrel)
  ∧ socket (mounted umbrel) = new_WebSocket "ws://umbrel.local:4848"
  ∧ readyState (socket (cleanup "sub1" (mounted umbrel)).2) = CONNECTING
  ∧ calls (socket (cleanup "sub1" (mounted umbrel)).2) = [].
Proof. split_and!; reflexivity. Qed.

(** * The relay information document *)

(** The message handler writes to the event list, to the flag and to the
    console, and to nothing else. *)
Lemma onmessage_untouched (frame : Text) (w : World) :
  isConnected (onmessage frame w).2 = isConnected w
  ∧ relayInformationDocument (onmessage frame w).2 = relayInformationDocument w
  ∧ socket (onmessage frame w).2 = socket w
  ∧ requests (onmessage frame w).2 = requests w.
Proof.
  destruct frame as [|data]; [done|].
  assert (data = JNull ∨ data ≠ JNull) as [->|Hnull]
    by (destruct data; auto); [done|].
  rewrite onmessage_JSONText by done.
  repeat (case_match; try done).
Qed.

(** No occurrence, whatever its outcome, makes the component call [fetch]
    again. *)
Lemma dispatch_requests (subscriptionID : string) (o : Occurrence) (w : World) :
  requests (dispatch subscriptionID o w).2 = requests w.
Proof.
  destruct o as [|frame| | |[|response]|]; try done.
  - apply onmessage_untouched.
  - unfold dispatch, fetch_then. destruct (ok response); [|done].
    unfold response_json. by destruct (body response).
  - cbn [dispatch].
    destruct (decide (readyState (socket w) = OPEN)) as [Hopen|Hother].
    + by rewrite cleanup_open.
    + by rewrite cleanup_not_open.
Qed.

(** The document changes only when a fetch is fulfilled with a successful
    response, and it is then the value that the body spells. *)
Lemma dispatch_relayInformationDocument
    (subscriptionID : string) (o : Occurrence) (w : World) :
  relayInformationDocument (dispatch subscriptionID o w).2
    ≠ relayInformationDocument w →
  ∃ response : Response,
    o = FetchSettled (Fulfilled response)
    ∧ ok response = true
    ∧ body response
      = JSONText (relayInformationDocument (dispatch subscriptionID o w).2).
Proof.
  destruct o as [|frame| | |[|response]|]; try done.
  - cbn [dispatch]. intros Hchanged.
    by destruct (Hchanged (proj1 (proj2 (onmessage_untouched frame w)))).
  - intros Hchanged. exists response. split; [done|].
    revert Hchanged. unfold dispatch, fetch_then, response_json.
    destruct (ok response); [|done].
    by destruct (body response).
  - cbn [dispatch].
    destruct (decide (readyState (socket w) = OPEN)) as [Hopen|Hother].
    + by rewrite cleanup_open.
    + by rewrite cleanup_not_open.
Qed.

(** C8. Mounting issues one request: a GET of the relay's HTTP URL with the
    header [Accept: application/nostr+json], the document being the empty
    object.  A response whose status is in 200..299 and whose body spells a
    document publishes that document; a response with any other status
    leaves the world as it was, and so does a rejected fetch; the document
    changes through nothing but a successful response.  Nothing that happens
    afterwards issues a second request. *)
Theorem relay_information_fetch
    (location : Location) (subscriptionID : string)
    (response : Response) (doc : json) (o : Occurrence) (w : World) :
  requests (mounted location)
  = [{| resource := HttpRelayUrl location;
        method := "GET";
        headers := [("Accept", "application/nostr+json")] |}]
  ∧ relayInformationDocument (mounted location) = JObject ∅
  ∧ (ok response = true ↔ (200 ≤ status response ≤ 299)%Z)
  ∧ (ok response = true → body response = JSONText doc →
     fetch_then (Fulfilled response) w
     = (Normal (), with_relayInformationDocument doc w))
  ∧ (ok response = false →
     fetch_then (Fulfilled response) w = (Normal (), w))
  ∧ (fetch_then Rejected w).2 = w
  ∧ (relayInformationDocument (dispatch subscriptionID o w).2
       ≠ relayInformationDocument w →
     ∃ response' : Response,
       o = FetchSettled (Fulfilled response')
       ∧ ok response' = true
       ∧ body response'
         = JSONText (relayInformationDocument (dispatch subscriptionID o w).2))
  ∧ requests (dispatch subscriptionID o w).2 = requests w.
Proof.
  split_and!; try done.
  - unfold ok. rewrite andb_true_iff, !Z.leb_le. done.
  - intros Hok Hbody. unfold fetch_then, response_json.
    by rewrite Hok, Hbody.
  - intros Hok. unfold fetch_then. by rewrite Hok.
  - apply dispatch_relayInformationDocument.
  - apply dispatch_requests.
Qed.

(** A relay that answers 200 with its document, and one that answers 500. *)
Lemma relay_information_fetch_witness :
  let info := JObject {[ "version" := JString "0.8.9" ]} in
  fetch_then (Fulfilled {| status := 200; body := JSONText info |})
    (mounted umbrel)
  = (Normal (), with_relayInformationDocument info (mounted umbrel))
  ∧ fetch_then (Fulfilled {| status := 500; body := NotJSON |})
      (mounted umbrel)
    = (Normal (), mounted umbrel).
Proof.
  split.
  - refine (proj1 (proj2 (proj2 (proj2 (relay_information_fetch
      umbrel "sub1" {| status := 200; body := JSONText _ |} _
      SocketOpen (mounted umbrel))))) _ _); reflexivity.
  - refine (proj1 (proj2 (proj2 (proj2 (proj2 (relay_information_fetch
      umbrel "sub1" {| status := 500; body := NotJSON |} JNull
      SocketOpen (mounted umbrel)))))) _); reflexivity.
Defined.

(** * Beyond single frames: what a frame is to the handler *)

(** The frames that the handler processes to its end with nothing left to
    fail: texts that spell a value other than [null] and that are not an
    event without a payload. *)
Definition handled (frame : Text) : bool :=
  match frame with
  | NotJSON => false
  | JSONText JNull => false
  | JSONText data => negb (payload_missing data)
  end.

(** The entry that a frame adds to the event list, if it adds one. *)
Definition entry_of (frame : Text) : option RelayEvent :=
  match frame with
  | NotJSON => None
  | JSONText data => event_of <$> EVENT_payload data
  end.

(** Whether a frame is taken for the end-of-stream marker. *)
Definition marks_end (frame : Text) : bool :=
  match frame with
  | NotJSON => false
  | JSONText data =>
      ToBoolean (GetV data (Name "length"))
      && strict_equals (GetV data (Index 0)) "EOSE"
  end.

(** The console entry that a frame causes, if it causes one. *)
Definition logged (frame : Text) : option (string * json) :=
  match frame with
  | NotJSON => None
  | JSONText data =>
      if ToBoolean (GetV data (Name "length")) then None
      else Some ("Error: No data length", data)
  end.

(** The occurrences of a list dispatched in order, followed up to the first
    throw or deferred error. *)
Fixpoint happen (subscriptionID : string) (os : list Occurrence) : Js unit :=
  match os with
  | [] => mret ()
  | o :: rest => dispatch subscriptionID o;; happen subscriptionID rest
  end.

(** The frames that the component sends are its subscribe request and its
    unsubscribe request, and it starts the closing handshake. *)
Definition own_call (subscriptionID : string) (c : SocketCall) : Prop :=
  c = Sent (JSON_stringify (REQ subscriptionID))
  ∨ c = Sent (JSON_stringify (CLOSE subscriptionID))
  ∨ c = CloseStarted.

(** * The handler, frame by frame *)

Lemma onmessage_step (frame : Text) (w : World) :
  handled frame = true →
  onmessage frame w
  = (Normal (),
     with_console (console w ++ option_list (logged frame))
       (with_hasFetchedAllEvents (hasFetchedAllEvents w || marks_end frame)
          (with_events (option_list (entry_of frame) ++ events w) w))).
Proof.
  destruct frame as [|data]; [done|].
  assert (data = JNull ∨ data ≠ JNull) as [->|Hnull]
    by (destruct data; auto); [done|].
  intros Hhandled.
  assert (Hpayload : payload_missing data = false).
  { destruct data; try done; by apply negb_true_iff in Hhandled. }
  clear Hhandled. rewrite onmessage_JSONText by done.
  unfold payload_missing in Hpayload.
  unfold logged, marks_end, entry_of, EVENT_payload.
  destruct (ToBoolean (GetV data (Name "length"))); simpl in *.
  - destruct (strict_equals (GetV data (Index 0)) "EVENT") eqn:Htag.
    + rewrite (strict_equals_EVENT_not_EOSE _ Htag).
      rewrite orb_false_r, app_nil_r.
      destruct (GetV data (Index 2)) as [[]|]; try done;
        by destruct w.
    + rewrite app_nil_r.
      destruct (strict_equals (GetV data (Index 0)) "EOSE");
        [by rewrite orb_true_r | by rewrite orb_false_r; destruct w].
  - rewrite orb_false_r. by destruct w.
Qed.

Lemma onmessage_unhandled (frame : Text) (w : World) :
  handled frame = false →
  (frame = NotJSON ∧ onmessage frame w = (Throw SyntaxError, w))
  ∨ (frame = JSONText JNull ∧ onmessage frame w = (Throw TypeError, w))
  ∨ (∃ data, frame = JSONText data
       ∧ payload_missing data = true
       ∧ onmessage frame w = (Deferred TypeError, w)).
Proof.
  destruct frame as [|data]; [by left|].
  assert (data = JNull ∨ data ≠ JNull) as [->|Hnull]
    by (destruct data; auto); [right; by left|].
  intros Hhandled. right. right. exists data.
  assert (Hpayload : payload_missing data = true).
  { destruct data; try done; by apply negb_false_iff in Hhandled. }
  split_and!; try done. rewrite onmessage_JSONText by done.
  unfold payload_missing in Hpayload.
  apply andb_true_iff in Hpayload as [Htags Hpayload].
  apply andb_true_iff in Htags as [Hlength Htag].
  rewrite Hlength, Htag, (strict_equals_EVENT_not_EOSE _ Htag). simpl.
  by destruct (GetV data (Index 2)) as [[]|].
Qed.

(** The world that a run of handled frames leaves, in closed form. *)
Definition summary (frames : list Text) (w : World) : World :=
  with_console (console w ++ omap logged frames)
    (with_hasFetchedAllEvents
       (hasFetchedAllEvents w || existsb marks_end frames)
       (with_events (rev (omap entry_of frames) ++ events w) w)).

Lemma omap_cons_option_list {A B : Type} (f : A → option B) (x : A) (l : list A) :
  omap f (x :: l) = option_list (f x) ++ omap f l.
Proof. simpl. by destruct (f x). Qed.

Lemma summary_nil (w : World) : summary [] w = w.
Proof. unfold summary. simpl. rewrite app_nil_r, orb_false_r. by destruct w. Qed.

Lemma summary_cons (frame : Text) (rest : list Text) (w : World) :
  summary rest (summary [frame] w) = summary (frame :: rest) w.
Proof.
  unfold summary. cbn [console hasFetchedAllEvents events with_console
    with_hasFetchedAllEvents with_events existsb].
  rewrite !(omap_cons_option_list _ frame), !orb_false_r.
  cbn [omap]. rewrite !app_nil_r, <- !app_assoc, orb_assoc.
  destruct (entry_of frame); simpl; by rewrite <- ?app_assoc.
Qed.

Lemma onmessage_summary (frame : Text) (w : World) :
  handled frame = true → onmessage frame w = (Normal (), summary [frame] w).
Proof.
  intros Hhandled. rewrite onmessage_step by done. unfold summary.
  rewrite !(omap_cons_option_list _ frame). cbn [omap existsb].
  rewrite !app_nil_r, orb_false_r.
  by destruct (entry_of frame).
Qed.

Lemma deliver_handled (frames : list Text) (w : World) :
  forallb handled frames = true →
  deliver frames w = (Normal (), summary frames w).
Proof.
  revert w. induction frames as [|frame rest IH]; intros w Hall.
  - by rewrite summary_nil.
  - simpl in Hall. apply andb_true_iff in Hall as [Hframe Hrest].
    rewrite deliver_cons, onmessage_summary by done.
    rewrite IH by done. by rewrite summary_cons.
Qed.

(** X1. How the handler ends, frame by frame.  It throws exactly on a text
    that is not JSON and on the text [null].  It returns with a failing
    update left to the render exactly on a decoded frame that it takes for
    an event and that has nothing, or [null], at index 2.  On every other
    frame it returns with its updates done.  In the first two cases the
    handler has changed nothing: the world, console included, is the one it
    was given. *)
Theorem onmessage_ends_in_one_of_three_ways (frame : Text) (w : World) :
  ((∃ e, (onmessage frame w).1 = Throw e)
   ↔ frame = NotJSON ∨ frame = JSONText JNull)
  ∧ ((∃ e, (onmessage frame w).1 = Deferred e)
     ↔ ∃ data, frame = JSONText data ∧ payload_missing data = true)
  ∧ ((onmessage frame w).1 = Normal () ↔ handled frame = true)
  ∧ ((onmessage frame w).1 ≠ Normal () → (onmessage frame w).2 = w).
Proof.
  destruct (handled frame) eqn:Hframe.
  - rewrite onmessage_step by done. cbn [fst snd]. split_and!.
    + split; [by intros [e ?]|]. intros [->| ->]; done.
    + split; [by intros [e ?]|]. intros (data & -> & Hpayload).
      destruct data; simpl in Hframe; try done;
        by rewrite Hpayload in Hframe.
    + done.
    + done.
  - destruct (onmessage_unhandled frame w Hframe)
      as [[-> ->]|[[-> ->]|(data & -> & Hpayload & ->)]]; cbn [fst snd].
    + split_and!; try done.
      * split; [by left | by exists SyntaxError].
      * split; [by intros [e ?] | by intros (data & ? & _)].
    + split_and!; try done.
      * split; [by right | by exists TypeError].
      * split; [by intros [e ?]|]. by intros (data & [= <-] & ?).
    + split_and!; try done.
      * split; [by intros [e ?]|]. intros [?| [= ->]]; done.
      * split; [by exists data | by exists TypeError].
Qed.

(** X2. A run of any mix of frames that the handler processes to its end,
    in closed form: the run returns and the event list is the entries of
    the event frames among them, latest first, in front of the previous
    entries; the flag is true when it was or when one frame was the
    end-of-stream marker; the console has gained the entries of the frames
    with a falsy length, in order; no other cell has changed. *)
Theorem deliver_in_closed_form (frames : list Text) (w : World) :
  (forallb handled frames = true →
   deliver frames w = (Normal (), summary frames w))
  ∧ events (summary frames w) = rev (omap entry_of frames) ++ events w
  ∧ hasFetchedAllEvents (summary frames w)
    = hasFetchedAllEvents w || existsb marks_end frames
  ∧ console (summary frames w) = console w ++ omap logged frames
  ∧ isConnected (summary frames w) = isConnected w
  ∧ relayInformationDocument (summary frames w) = relayInformationDocument w
  ∧ socket (summary frames w) = socket w
  ∧ requests (summary frames w) = requests w.
Proof.
  split_and!; try done. apply deliver_handled.
Qed.

(** An event, a relay notice, the empty frame, an event for another
    subscription and the end-of-stream marker. *)
Lemma deliver_in_closed_form_witness :
  let frames :=
    [EVENT (JString "sub1") (note "a" 1 100 "hi");
     JSONText (JArray [JString "NOTICE"; JString "slow down"]);
     JSONText (JArray []);
     EVENT (JString "other") (note "b" 7 101 "+");
     EOSE [JString "sub1"]] in
  deliver frames (mounted umbrel)
  = (Normal (),
     with_console [("Error: No data length", JArray [])]
       (with_hasFetchedAllEvents true
          (with_events [event_of (note "b" 7 101 "+");
                        event_of (note "a" 1 100 "hi")] (mounted umbrel)))).
Proof.
  intros frames.
  rewrite (proj1 (deliver_in_closed_form frames (mounted umbrel)) eq_refl).
  reflexivity.
Defined.

(** X3. Relay messages that are neither events nor the end-of-stream marker
    (NOTICE, OK, AUTH, ...) are dropped in silence: on an array frame whose
    first element is not the string ["EOSE"] nor the string ["EVENT"], the
    handler returns and the world, console included, is unchanged. *)
Theorem unrecognised_tag_is_ignored
    (first : json) (rest : list json) (w : World) :
  first ≠ JString "EOSE" →
  first ≠ JString "EVENT" →
  onmessage (JSONText (JArray (first :: rest))) w = (Normal (), w).
Proof.
  intros HEOSE HEVENT. rewrite onmessage_JSONText by done.
  assert (Htag : ∀ s, first ≠ JString s → strict_equals (Some first) s = false).
  { intros s Hs. destruct first; try done. simpl.
    apply String.eqb_neq. by intros ->. }
  assert (Hlength :
    ToBoolean (GetV (JArray (first :: rest)) (Name "length")) = true)
    by reflexivity.
  assert (Hfirst : GetV (JArray (first :: rest)) (Index 0) = Some first)
    by reflexivity.
  by rewrite Hlength, Hfirst, !Htag.
Qed.

Lemma unrecognised_tag_is_ignored_witness :
  onmessage (JSONText (JArray [JString "NOTICE"; JString "rate limited"]))
    (mounted umbrel)
  = (Normal (), mounted umbrel).
Proof.
  apply (unrecognised_tag_is_ignored (JString "NOTICE")
    [JString "rate limited"] (mounted umbrel)); discriminate.
Defined.

(** X4. The handler reads a decoded frame through its [length], its
    element 0 and its element 2 alone: two frames with a truthy length that
    agree on those two elements are handled alike.  The subscription id at
    index 1 is never compared with the component's own, and an object with
    the members of an array is taken for one. *)
Theorem onmessage_reads_tag_and_payload_only (data1 data2 : json) (w : World) :
  ToBoolean (GetV data1 (Name "length")) = true →
  ToBoolean (GetV data2 (Name "length")) = true →
  GetV data1 (Index 0) = GetV data2 (Index 0) →
  GetV data1 (Index 2) = GetV data2 (Index 2) →
  onmessage (JSONText data1) w = onmessage (JSONText data2) w.
Proof.
  intros Hlength1 Hlength2 Htag Hpayload.
  assert (Hnull : ∀ data, ToBoolean (GetV data (Name "length")) = true →
    data ≠ JNull) by (by intros data Hl ->).
  rewrite !onmessage_JSONText by auto.
  by rewrite Hlength1, Hlength2, Htag, Hpayload.
Qed.

(** An event of another subscription, sent as an object with the members
    [length], [0] and [2], is taken for an event of this one. *)
Lemma onmessage_reads_tag_and_payload_only_witness :
  onmessage (EVENT (JString "sub1") (note "a" 1 100 "hi")) (mounted umbrel)
  = onmessage
      (JSONText (JObject (list_to_map
         [("length", JNumber 3); ("0", JString "EVENT");
          ("1", JString "another"); ("2", note "a" 1 100 "hi")])))
      (mounted umbrel).
Proof.
  apply onmessage_reads_tag_and_payload_only; reflexivity.
Defined.

(** * Runs of occurrences *)

Definition is_Unmount (o : Occurrence) : bool :=
  match o with
  | Unmount => true
  | _ => false
  end.

Definition ends_stream (o : Occurrence) : bool :=
  match o with
  | SocketMessage frame => marks_end frame
  | _ => false
  end.

Definition fetch_succeeds (o : Occurrence) : bool :=
  match o with
  | FetchSettled (Fulfilled response) => ok response
  | _ => false
  end.

Lemma happen_cons (subscriptionID : string) (o : Occurrence)
    (rest : list Occurrence) (w : World) :
  happen subscriptionID (o :: rest) w =
  match dispatch subscriptionID o w with
  | (Normal _, w') => happen subscriptionID rest w'
  | (Throw e, w') => (Throw e, w')
  | (Deferred e, w') => (Deferred e, w')
  end.
Proof. reflexivity. Qed.

(** An invariant of single occurrences is an invariant of runs. *)
Lemma happen_invariant (P : World → Prop) (subscriptionID : string) :
  (∀ o w, P w → P (dispatch subscriptionID o w).2) →
  ∀ os w, P w → P (happen subscriptionID os w).2.
Proof.
  intros Hstep os. induction os as [|o rest IH]; intros w Hw; [done|].
  rewrite happen_cons. pose proof (Hstep o w Hw) as Hnext.
  destruct (dispatch subscriptionID o w) as [[[]|e|e] w']; simpl in *; auto.
Qed.

Lemma dispatch_SocketOpen (subscriptionID : string) (w : World) :
  dispatch subscriptionID SocketOpen w
  = (Normal (),
     {| events := [];
        isConnected := true;
        hasFetchedAllEvents := hasFetchedAllEvents w;
        relayInformationDocument := relayInformationDocument w;
        socket :=
          {| url := url (socket w);
             readyState := OPEN;
             calls := calls (socket w)
                        ++ [Sent (JSON_stringify (REQ subscriptionID))] |};
        console := console w;
        requests := requests w |}).
Proof. reflexivity. Qed.

Lemma fetch_then_cells (outcome : Settled) (w : World) :
  events (fetch_then outcome w).2 = events w
  ∧ isConnected (fetch_then outcome w).2 = isConnected w
  ∧ hasFetchedAllEvents (fetch_then outcome w).2 = hasFetchedAllEvents w
  ∧ socket (fetch_then outcome w).2 = socket w
  ∧ console (fetch_then outcome w).2 = console w.
Proof.
  destruct outcome as [|response]; [done|].
  unfold fetch_then, response_json. destruct (ok response); [|done].
  by destruct (body response).
Qed.

Lemma cleanup_cells (subscriptionID : string) (w : World) :
  events (cleanup subscriptionID w).2 = events w
  ∧ isConnected (cleanup subscriptionID w).2 = isConnected w
  ∧ hasFetchedAllEvents (cleanup subscriptionID w).2 = hasFetchedAllEvents w
  ∧ relayInformationDocument (cleanup subscriptionID w).2
    = relayInformationDocument w
  ∧ console (cleanup subscriptionID w).2 = console w.
Proof.
  destruct (decide (readyState (socket w) = OPEN)) as [Hopen|Hother].
  - by rewrite cleanup_open.
  - by rewrite cleanup_not_open.
Qed.

Lemma onmessage_hasFetchedAllEvents (frame : Text) (w : World) :
  hasFetchedAllEvents (onmessage frame w).2
  = hasFetchedAllEvents w || (handled frame && marks_end frame).
Proof.
  destruct (handled frame) eqn:Hframe.
  - by rewrite onmessage_step.
  - destruct (onmessage_unhandled frame w Hframe)
      as [[_ ->]|[[_ ->]|(data & _ & _ & ->)]];
      simpl; by rewrite orb_false_r.
Qed.

Lemma dispatch_hasFetchedAllEvents
    (subscriptionID : string) (o : Occurrence) (w : World) :
  hasFetchedAllEvents w = true →
  hasFetchedAllEvents (dispatch subscriptionID o w).2 = true.
Proof.
  intros Htrue. destruct o as [|frame| | |outcome|]; try done.
  - cbn [dispatch]. by rewrite onmessage_hasFetchedAllEvents, Htrue.
  - cbn [dispatch].
    by rewrite (proj1 (proj2 (proj2 (fetch_then_cells outcome w)))).
  - cbn [dispatch].
    by rewrite (proj1 (proj2 (proj2 (cleanup_cells subscriptionID w)))).
Qed.

Lemma dispatch_Normal_hasFetchedAllEvents
    (subscriptionID : string) (o : Occurrence) (w w' : World) :
  dispatch subscriptionID o w = (Normal (), w') →
  hasFetchedAllEvents w' = hasFetchedAllEvents w || ends_stream o.
Proof.
  intros Hrun.
  assert (Hw' : w' = (dispatch subscriptionID o w).2) by by rewrite Hrun.
  assert (Hc : (dispatch subscriptionID o w).1 = Normal ()) by by rewrite Hrun.
  subst w'. clear Hrun.
  destruct o as [|frame| | |outcome|]; cbn [dispatch ends_stream] in *;
    rewrite ?orb_false_r; try done.
  - rewrite onmessage_hasFetchedAllEvents.
    destruct (handled frame) eqn:Hframe; [done|].
    destruct (onmessage_unhandled frame w Hframe)
      as [[_ He]|[[_ He]|(data & _ & _ & He)]];
      by rewrite He in Hc.
  - apply fetch_then_cells.
  - apply cleanup_cells.
Qed.

(** X5. Nothing resets [hasFetchedAllEvents]: once it is true it is true
    after every run of occurrences, a later open of the socket included, so
    the loading state never comes back.  In a run of a mounted component
    that returns, the flag is true at the end exactly when it was true at
    the start or one of the frames was the end-of-stream marker. *)
Theorem hasFetchedAllEvents_is_never_reset
    (subscriptionID : string) (os : list Occurrence) (w : World) :
  (hasFetchedAllEvents w = true →
   hasFetchedAllEvents (happen subscriptionID os w).2 = true)
  ∧ (existsb is_Unmount os = false →
     (happen subscriptionID os w).1 = Normal () →
     hasFetchedAllEvents (happen subscriptionID os w).2
     = hasFetchedAllEvents w || existsb ends_stream os).
Proof.
  split.
  - apply (happen_invariant (λ w, hasFetchedAllEvents w = true)).
    intros o w'. apply dispatch_hasFetchedAllEvents.
  - intros _. revert w. induction os as [|o rest IH]; intros w.
    + simpl. by rewrite orb_false_r.
    + rewrite happen_cons. cbn [existsb].
      destruct (dispatch subscriptionID o w) as [[[]|e|e] w'] eqn:Hstep;
        [|done|done].
      intros Hrest. rewrite (IH w' Hrest).
      rewrite (dispatch_Normal_hasFetchedAllEvents _ _ _ _ Hstep).
      by rewrite orb_assoc.
Qed.

(** A connection that opens, receives the marker, is lost and opens
    again. *)
Lemma hasFetchedAllEvents_is_never_reset_witness :
  hasFetchedAllEvents
    (happen "sub1"
       [SocketMessage (EOSE [JString "sub1"]); SocketClose; SocketOpen]
       (dispatch "sub1" SocketOpen (mounted umbrel)).2).2
  = true.
Proof.
  rewrite (proj2 (hasFetchedAllEvents_is_never_reset "sub1"
    [SocketMessage (EOSE [JString "sub1"]); SocketClose; SocketOpen]
    (dispatch "sub1" SocketOpen (mounted umbrel)).2) eq_refl eq_refl).
  reflexivity.
Defined.

(** * What the component asks of its socket *)

(** Nothing has been asked of the socket before it has opened, and the
    first thing asked is the subscribe request. *)
Definition subscribes_first (subscriptionID : string) (w : World) : Prop :=
  Forall (own_call subscriptionID) (calls (socket w))
  ∧ (calls (socket w) = [] →
     isConnected w = false ∧ readyState (socket w) ≠ OPEN)
  ∧ (calls (socket w) ≠ [] →
     head (calls (socket w))
     = Some (Sent (JSON_stringify (REQ subscriptionID)))).

(** The socket has been asked for nothing but subscriptions. *)
Definition only_subscribed (subscriptionID : string) (w : World) : Prop :=
  Forall (λ c, c = Sent (JSON_stringify (REQ subscriptionID)))
    (calls (socket w)).

Lemma dispatch_subscribes_first
    (subscriptionID : string) (o : Occurrence) (w : World) :
  subscribes_first subscriptionID w →
  subscribes_first subscriptionID (dispatch subscriptionID o w).2.
Proof.
  intros (Hown & Hnone & Hsome). unfold subscribes_first.
  destruct o as [|frame| | |outcome|].
  - rewrite dispatch_SocketOpen. cbn [snd socket calls isConnected readyState].
    split_and!.
    + apply Forall_app. split; [done|]. apply Forall_singleton. by left.
    + by intros ?%app_eq_nil%proj2.
    + intros _. destruct (calls (socket w)) as [|c cs] eqn:Hcalls; [done|].
      by apply Hsome.
  - cbn [dispatch].
    destruct (onmessage_untouched frame w) as (-> & _ & -> & _). done.
  - cbn. split_and!; [done| |done].
    intros Hnil. split; [done|]. by apply Hnone.
  - cbn. split_and!; [done| |done]. by intros _.
  - cbn [dispatch].
    destruct (fetch_then_cells outcome w) as (_ & -> & _ & -> & _). done.
  - cbn [dispatch].
    destruct (decide (readyState (socket w) = OPEN)) as [Hopen|Hother].
    + rewrite cleanup_open by done.
      cbn [snd socket calls isConnected readyState with_socket].
      assert (Hcalls : calls (socket w) ≠ []).
      { intros Hnil. by destruct (Hnone Hnil). }
      split_and!.
      * apply Forall_app. split; [done|].
        apply Forall_cons. split; [right; by left|].
        apply Forall_singleton. right. by right.
      * by intros ?%app_eq_nil%proj2.
      * intros _. destruct (calls (socket w)) as [|c cs]; [done|].
        by apply Hsome.
    + by rewrite cleanup_not_open.
Qed.

(** So is the render that follows a handler: when it fails, React unmounts
    [App], and the cleanup asks of the socket what an unmount asks. *)
Lemma render_subscribes_first
    (subscriptionID : string) (o : Occurrence) (w : World) :
  subscribes_first subscriptionID w →
  subscribes_first subscriptionID
    (render subscriptionID (dispatch subscriptionID o w)).2.
Proof.
  intros Hw%(dispatch_subscribes_first subscriptionID o).
  destruct (dispatch subscriptionID o w) as [[[]|e|e] w']; try done.
  by apply (dispatch_subscribes_first subscriptionID Unmount).
Qed.

Lemma dispatch_only_subscribed
    (subscriptionID : string) (o : Occurrence) (w : World) :
  is_Unmount o = false →
  only_subscribed subscriptionID w →
  only_subscribed subscriptionID (dispatch subscriptionID o w).2.
Proof.
  unfold only_subscribed. intros Hmounted Hcalls.
  destruct o as [|frame| | |outcome|]; try done.
  - rewrite dispatch_SocketOpen. cbn [snd socket calls].
    apply Forall_app. split; [done|]. by apply Forall_singleton.
  - cbn [dispatch].
    by destruct (onmessage_untouched frame w) as (_ & _ & -> & _).
  - cbn [dispatch].
    by destruct (fetch_then_cells outcome w) as (_ & _ & _ & -> & _).
Qed.

Lemma happen_only_subscribed
    (subscriptionID : string) (os : list Occurrence) (w : World) :
  existsb is_Unmount os = false →
  only_subscribed subscriptionID w →
  only_subscribed subscriptionID (happen subscriptionID os w).2.
Proof.
  revert w. induction os as [|o rest IH]; intros w Hos Hw; [done|].
  cbn [existsb] in Hos. apply orb_false_iff in Hos as [Ho Hrest].
  rewrite happen_cons.
  pose proof (dispatch_only_subscribed subscriptionID o w Ho Hw) as Hnext.
  destruct (dispatch subscriptionID o w) as [[[]|e|e] w']; simpl in *; auto.
Qed.

(** X6. Whatever happens to a mounted component, in whatever order, all it
    ever asks of its socket is its own subscribe request, its own
    unsubscribe request and the closing handshake, and the subscribe request
    comes first: nothing is sent before it, the socket is not open without
    it, and [isConnected] is not true without it. *)
Theorem socket_is_subscribed_first
    (location : Location) (subscriptionID : string) (os : list Occurrence) :
  let w := (happen subscriptionID os (mounted location)).2 in
  Forall (own_call subscriptionID) (calls (socket w))
  ∧ (calls (socket w) = []
     ∨ head (calls (socket w))
       = Some (Sent (JSON_stringify (REQ subscriptionID))))
  ∧ (isConnected w = true → calls (socket w) ≠ [])
  ∧ (readyState (socket w) = OPEN → calls (socket w) ≠ []).
Proof.
  intros w.
  assert (Hinv : subscribes_first subscriptionID w).
  { apply happen_invariant.
    - intros o w'. apply dispatch_subscribes_first.
    - split_and!; [by apply Forall_nil | done | done]. }
  destruct Hinv as (Hown & Hnone & Hsome).
  split_and!; [done| | |].
  - destruct (calls (socket w)) as [|c cs] eqn:Hcalls; [by left|].
    right. by apply Hsome.
  - intros Hconnected Hnil. destruct (Hnone Hnil) as [Hc _]. congruence.
  - intros Hopen Hnil. by destruct (Hnone Hnil) as [_ Hs].
Qed.

(** X7. A component torn down before its socket has opened leaves the
    socket to itself: the teardown changes nothing, and nothing that happens
    afterwards closes the socket or unsubscribes; when the socket opens, the
    subscribe request is still sent. *)
Theorem teardown_before_open_leaves_socket_live
    (location : Location) (subscriptionID : string) (os : list Occurrence) :
  happen subscriptionID (Unmount :: os) (mounted location)
  = happen subscriptionID os (mounted location)
  ∧ (existsb is_Unmount os = false →
     only_subscribed subscriptionID
       (happen subscriptionID (Unmount :: os) (mounted location)).2)
  ∧ socket (happen subscriptionID [Unmount; SocketOpen] (mounted location)).2
    = {| url := webSocketRelayUrl location;
         readyState := OPEN;
         calls := [Sent (JSON_stringify (REQ subscriptionID))] |}.
Proof.
  split_and!; [done| |done].
  intros Hos. apply (happen_only_subscribed subscriptionID os); [done|].
  by apply Forall_nil.
Qed.

Lemma teardown_before_open_leaves_socket_live_witness :
  only_subscribed "sub1"
    (happen "sub1"
       [Unmount; SocketOpen; SocketMessage (EOSE [JString "sub1"])]
       (mounted umbrel)).2.
Proof.
  apply (proj1 (proj2 (teardown_before_open_leaves_socket_live umbrel "sub1"
    [SocketOpen; SocketMessage (EOSE [JString "sub1"])]))).
  reflexivity.
Defined.

(** * The version shown in the footer (lines 258-260) *)

Section Footer.

(** The spelling of a number is the platform's. *)
Variable Number_toString : Z → string.

(** [ToString] of a value born from JSON, as a template literal applies it:
    an array joins its elements with commas, [null] elements spelled empty,
    and an object is spelled [[object Object]]. *)
Fixpoint ToString (v : json) : string :=
  match v with
  | JNull => "null"
  | JBool b => if b then "true" else "false"
  | JNumber n => Number_toString n
  | JString s => s
  | JArray elements =>
      (fix join (l : list json) : string :=
         match l with
         | [] => ""
         | e :: rest =>
             let spelled :=
               match e with
               | JNull => ""
               | _ => ToString e
               end in
             match rest with
             | [] => spelled
             | _ :: _ => spelled +:+ "," +:+ join rest
             end
         end) elements
  | JObject _ => "[object Object]"
  end.

(** The expression
    [relayInformationDocument.version ? ` ${relayInformationDocument.version}` : ""]. *)
Definition version_suffix (relayInformationDocument : json) : Completion string :=
  version ← Get (Some relayInformationDocument) (Name "version");
  if ToBoolean version then
    version ← Get (Some relayInformationDocument) (Name "version");
    mret (" " +:+ match version with
                  | Some v => ToString v
                  | None => "undefined"
                  end)
  else
    mret "".

End Footer.

Lemma dispatch_keeps_document
    (subscriptionID : string) (o : Occurrence) (w : World) :
  fetch_succeeds o = false →
  relayInformationDocument (dispatch subscriptionID o w).2
  = relayInformationDocument w.
Proof.
  intros Ho. destruct o as [|frame| | |[|response]|]; try done.
  - cbn [dispatch]. apply onmessage_untouched.
  - cbn [dispatch fetch_succeeds] in *. unfold fetch_then. by rewrite Ho.
  - cbn [dispatch]. apply cleanup_cells.
Qed.

Lemma happen_keeps_document
    (subscriptionID : string) (os : list Occurrence) (w : World) :
  existsb fetch_succeeds os = false →
  relayInformationDocument (happen subscriptionID os w).2
  = relayInformationDocument w.
Proof.
  revert w. induction os as [|o rest IH]; intros w Hos; [done|].
  cbn [existsb] in Hos. apply orb_false_iff in Hos as [Ho Hrest].
  rewrite happen_cons.
  pose proof (dispatch_keeps_document subscriptionID o w Ho) as Hstep.
  destruct (dispatch subscriptionID o w) as [[[]|e|e] w']; simpl in *;
    [|done|done].
  by rewrite IH.
Qed.

(** X8. Until a response with a status in 200..299 has arrived, the footer
    shows no version: whatever else happens (rejected fetches, error
    responses, frames, connection loss), the document is still the empty
    object and the version suffix is the empty string. *)
Theorem no_version_before_successful_response
    (Number_toString : Z → string) (location : Location)
    (subscriptionID : string) (os : list Occurrence) :
  existsb fetch_succeeds os = false →
  relayInformationDocument (happen subscriptionID os (mounted location)).2
  = JObject ∅
  ∧ version_suffix Number_toString
      (relayInformationDocument
         (happen subscriptionID os (mounted location)).2)
    = Normal "".
Proof.
  intros Hos. rewrite happen_keeps_document by done. by split.
Qed.

(** The spec's scenario: the relay answers 500 while the socket opens and
    delivers. *)
Lemma no_version_before_successful_response_witness :
  version_suffix pretty
    (relayInformationDocument
       (happen "sub1"
          [SocketOpen;
           FetchSettled (Fulfilled {| status := 500; body := NotJSON |});
           SocketMessage (EOSE [JString "sub1"])]
          (mounted umbrel)).2)
  = Normal "".
Proof.
  apply (proj2 (no_version_before_successful_response pretty umbrel "sub1"
    [SocketOpen;
     FetchSettled (Fulfilled {| status := 500; body := NotJSON |});
     SocketMessage (EOSE [JString "sub1"])] eq_refl)).
Defined.

(** X9. A successful response is stored as it is, whatever value its body
    spells, and the footer reads it unchecked: a body [null] makes the
    render throw a [TypeError]; a document whose [version] is a string that
    is not empty shows it after a space; a document other than [null] whose
    [version] is absent or falsy shows nothing. *)
Theorem footer_reads_stored_document
    (Number_toString : Z → string) (response : Response)
    (doc : json) (w : World) :
  ok response = true →
  body response = JSONText doc →
  relayInformationDocument (fetch_then (Fulfilled response) w).2 = doc
  ∧ (doc = JNull →
     version_suffix Number_toString
       (relayInformationDocument (fetch_then (Fulfilled response) w).2)
     = Throw TypeError)
  ∧ (∀ s, s ≠ "" → GetV doc (Name "version") = Some (JString s) →
     version_suffix Number_toString
       (relayInformationDocument (fetch_then (Fulfilled response) w).2)
     = Normal (" " +:+ s))
  ∧ (doc ≠ JNull → ToBoolean (GetV doc (Name "version")) = false →
     version_suffix Number_toString
       (relayInformationDocument (fetch_then (Fulfilled response) w).2)
     = Normal "").
Proof.
  intros Hok Hbody.
  assert (Hdoc :
    relayInformationDocument (fetch_then (Fulfilled response) w).2 = doc).
  { unfold fetch_then, response_json. by rewrite Hok, Hbody. }
  rewrite Hdoc. split_and!; [done|by intros ->| |].
  - intros s Hs Hversion.
    assert (Hnull : doc ≠ JNull) by (by intros ->).
    unfold version_suffix. rewrite Get_value by done. rewrite Hversion.
    by destruct s.
  - intros Hnull Hfalsy. unfold version_suffix.
    rewrite Get_value by done. cbn. by rewrite Hfalsy.
Qed.

(** A relay that answers 200 with the body [null]. *)
Lemma footer_reads_stored_document_witness :
  version_suffix pretty
    (relayInformationDocument
       (fetch_then (Fulfilled {| status := 200; body := JSONText JNull |})
          (mounted umbrel)).2)
  = Throw TypeError.
Proof.
  apply (proj1 (proj2 (footer_reads_stored_document pretty
    {| status := 200; body := JSONText JNull |} JNull (mounted umbrel)
    eq_refl eq_refl))).
  reflexivity.
Defined.

(** * The address form of the settings modal: [RelaySettingsModal.js] *)

(** ** Regular expressions

    The pattern of line 41 uses character classes, literal characters,
    concatenation, [+] and [*], anchored at both ends.  [address.match]
    is then non-null exactly when the whole address is in the language of
    the pattern, which derivatives decide. *)

Inductive RegExp : Type :=
  | Nothing
  | Epsilon
  | OneOf (member : ascii → bool)
  | Then (r1 r2 : RegExp)
  | Or (r1 r2 : RegExp)
  | Many (r : RegExp).

(** [r+] and a literal character. *)
Definition Several (r : RegExp) : RegExp := Then r (Many r).
Definition Literal (c : ascii) : RegExp := OneOf (Ascii.eqb c).

Fixpoint nullable (r : RegExp) : bool :=
  match r with
  | Nothing => false
  | Epsilon => true
  | OneOf _ => false
  | Then r1 r2 => nullable r1 && nullable r2
  | Or r1 r2 => nullable r1 || nullable r2
  | Many _ => true
  end.

Fixpoint derivative (c : ascii) (r : RegExp) : RegExp :=
  match r with
  | Nothing => Nothing
  | Epsilon => Nothing
  | OneOf member => if member c then Epsilon else Nothing
  | Then r1 r2 =>
      if nullable r1
      then Or (Then (derivative c r1) r2) (derivative c r2)
      else Then (derivative c r1) r2
  | Or r1 r2 => Or (derivative c r1) (derivative c r2)
  | Many r1 => Then (derivative c r1) (Many r1)
  end.

(** The whole of [s] is in the language of [r]. *)
Fixpoint accepts (r : RegExp) (s : string) : bool :=
  match s with
  | EmptyString => nullable r
  | String c rest => accepts (derivative c r) rest
  end.

(** The language of a regular expression. *)
Inductive Spells : RegExp → string → Prop :=
  | Spells_Epsilon : Spells Epsilon ""
  | Spells_OneOf (member : ascii → bool) (c : ascii) :
      member c = true → Spells (OneOf member) (String c "")
  | Spells_Then (r1 r2 : RegExp) (s1 s2 : string) :
      Spells r1 s1 → Spells r2 s2 → Spells (Then r1 r2) (s1 +:+ s2)
  | Spells_Or_l (r1 r2 : RegExp) (s : string) :
      Spells r1 s → Spells (Or r1 r2) s
  | Spells_Or_r (r1 r2 : RegExp) (s : string) :
      Spells r2 s → Spells (Or r1 r2) s
  | Spells_Many_nil (r : RegExp) : Spells (Many r) ""
  | Spells_Many_more (r : RegExp) (s1 s2 : string) :
      Spells r s1 → Spells (Many r) s2 → Spells (Many r) (s1 +:+ s2).

(** Every character of a string is in a class. *)
Fixpoint every (member : ascii → bool) (s : string) : bool :=
  match s with
  | EmptyString => true
  | String c rest => member c && every member rest
  end.

(** ** The two tests of [handleSubmit] (lines 40-44) *)

Definition between (low high c : ascii) : bool :=
  (nat_of_ascii low <=? nat_of_ascii c)%nat
  && (nat_of_ascii c <=? nat_of_ascii high)%nat.

Definition alphanumeric (c : ascii) : bool :=
  between "a" "z" c || between "A" "Z" c || between "0" "9" c.

(** [[a-zA-Z0-9.!#$%&'*+/=?^_`{|}~-]] *)
Definition local_part_char (c : ascii) : bool :=
  alphanumeric c
  || existsb (Ascii.eqb c) (String.list_ascii_of_string ".!#$%&'*+/=?^_`{|}~-").

(** [[a-zA-Z0-9-]] *)
Definition label_char (c : ascii) : bool :=
  alphanumeric c || Ascii.eqb c "-".

(** [/^[a-zA-Z0-9.!#$%&'*+/=?^_`{|}~-]+@[a-zA-Z0-9-]+(?:\.[a-zA-Z0-9-]+)*$/] *)
Definition nip05_pattern : RegExp :=
  Then (Several (OneOf local_part_char))
    (Then (Literal "@")
       (Then (Several (OneOf label_char))
          (Many (Then (Literal ".") (Several (OneOf label_char)))))).

Definition isNip05Address (address : string) : bool :=
  accepts nip05_pattern address.

(** [address.startsWith("npub")] *)
Definition isNpubAddress (address : string) : bool :=
  String.prefix "npub" address.

(** ** Derivatives decide the language *)

Lemma append_nil_l (s : string) : "" +:+ s = s.
Proof. reflexivity. Qed.

Lemma append_cons (c : ascii) (s1 s2 : string) :
  String c s1 +:+ s2 = String c (s1 +:+ s2).
Proof. reflexivity. Qed.

Lemma append_nil_r (s : string) : s +:+ "" = s.
Proof. induction s as [|c s IH]; [done|]. by rewrite append_cons, IH. Qed.

Lemma append_assoc (s1 s2 s3 : string) :
  (s1 +:+ s2) +:+ s3 = s1 +:+ s2 +:+ s3.
Proof.
  induction s1 as [|c s1 IH]; [done|]. by rewrite !append_cons, IH.
Qed.

Lemma append_eq_nil (s1 s2 : string) :
  s1 +:+ s2 = "" → s1 = "" ∧ s2 = "".
Proof. by destruct s1. Qed.

Lemma append_eq_cons (s1 s2 s : string) (c : ascii) :
  s1 +:+ s2 = String c s →
  (s1 = "" ∧ s2 = String c s) ∨ (∃ s1', s1 = String c s1' ∧ s = s1' +:+ s2).
Proof.
  destruct s1 as [|c1 s1]; [by left|].
  rewrite append_cons. intros [= -> <-]. right. by exists s1.
Qed.

Lemma nullable_Spells (r : RegExp) : nullable r = true ↔ Spells r "".
Proof.
  split.
  - induction r as [| |member|r1 IH1 r2 IH2|r1 IH1 r2 IH2|r IH];
      simpl; try done.
    + intros _. constructor.
    + intros [H1 H2]%andb_true_iff.
      apply (Spells_Then r1 r2 "" ""); auto.
    + intros [H|H]%orb_true_iff;
        [apply Spells_Or_l | apply Spells_Or_r]; auto.
    + intros _. constructor.
  - intros Hs. remember "" as s eqn:Hnil.
    induction Hs as [|member c Hc|r1 r2 s1 s2 _ IH1 _ IH2|r1 r2 s _ IH
                     |r1 r2 s _ IH| |r s1 s2 _ _ _ _]; simpl; try done.
    + apply append_eq_nil in Hnil as [-> ->].
      by rewrite IH1, IH2.
    + by rewrite IH.
    + rewrite IH by done. apply orb_true_r.
Qed.

(** A non-empty string of [r*] starts with a non-empty string of [r]. *)
Lemma Spells_Many_cons (r : RegExp) (c : ascii) (s : string) :
  Spells (Many r) (String c s) →
  ∃ s1 s2, s = s1 +:+ s2 ∧ Spells r (String c s1) ∧ Spells (Many r) s2.
Proof.
  intros Hs. remember (Many r) as rr eqn:Hr.
  remember (String c s) as cs eqn:Hcs. revert s Hcs.
  induction Hs as [| | | | | |r' s1 s2 Hs1 _ Hs2 IH]; try done.
  injection Hr as ->. intros s Hcs.
  apply append_eq_cons in Hcs as [[-> ->]|(s1' & -> & ->)].
  - by apply IH.
  - by exists s1', s2.
Qed.

Lemma Spells_Epsilon_inv (s : string) : Spells Epsilon s → s = "".
Proof. by inversion 1. Qed.

Lemma Spells_OneOf_inv (member : ascii → bool) (s : string) :
  Spells (OneOf member) s → ∃ c, s = String c "" ∧ member c = true.
Proof. inversion 1; subst. eauto. Qed.

Lemma Spells_Then_inv (r1 r2 : RegExp) (s : string) :
  Spells (Then r1 r2) s →
  ∃ s1 s2, s = s1 +:+ s2 ∧ Spells r1 s1 ∧ Spells r2 s2.
Proof. inversion 1; subst. eauto. Qed.

Lemma Spells_Or_inv (r1 r2 : RegExp) (s : string) :
  Spells (Or r1 r2) s → Spells r1 s ∨ Spells r2 s.
Proof. inversion 1; subst; auto. Qed.

Lemma derivative_Spells (c : ascii) (r : RegExp) (s : string) :
  Spells (derivative c r) s ↔ Spells r (String c s).
Proof.
  revert s.
  induction r as [| |member|r1 IH1 r2 IH2|r1 IH1 r2 IH2|r IH];
    intros s; simpl.
  - split; inversion 1.
  - split; inversion 1.
  - destruct (member c) eqn:Hc; split.
    + intros ->%Spells_Epsilon_inv. by constructor.
    + intros (c' & [= <- ->] & _)%Spells_OneOf_inv. constructor.
    + inversion 1.
    + intros (c' & [= <- ->] & Hc')%Spells_OneOf_inv. congruence.
  - assert (Hfront : ∀ s, Spells (Then (derivative c r1) r2) s →
      Spells (Then r1 r2) (String c s)).
    { intros s' (s1 & s2 & -> & H1 & H2)%Spells_Then_inv.
      rewrite <- append_cons. constructor; [by apply IH1 | done]. }
    assert (Hback : ∀ s, Spells (Then r1 r2) (String c s) →
      (∃ s1 s2, s = s1 +:+ s2 ∧ Spells (derivative c r1) s1 ∧ Spells r2 s2)
      ∨ (Spells r1 "" ∧ Spells (derivative c r2) s)).
    { intros s' (s1 & s2 & Heq & H1 & H2)%Spells_Then_inv.
      symmetry in Heq.
      apply append_eq_cons in Heq as [[-> ->]|(s1' & -> & ->)].
      - right. split; [done|]. by apply IH2.
      - left. exists s1', s2. split; [done|]. split; [by apply IH1 | done]. }
    destruct (nullable r1) eqn:Hnull; split.
    + intros [Hl|Hr]%Spells_Or_inv; [by apply Hfront|].
      apply (Spells_Then r1 r2 "" (String c s));
        [by apply nullable_Spells | by apply IH2].
    + intros [(s1 & s2 & -> & H1 & H2)|[_ H2]]%Hback;
        [apply Spells_Or_l; by constructor | by apply Spells_Or_r].
    + apply Hfront.
    + intros [(s1 & s2 & -> & H1 & H2)|[H1 _]]%Hback; [by constructor|].
      apply nullable_Spells in H1. congruence.
  - split.
    + intros [Hl|Hr]%Spells_Or_inv;
        [apply Spells_Or_l; by apply IH1 | apply Spells_Or_r; by apply IH2].
    + intros [Hl|Hr]%Spells_Or_inv;
        [apply Spells_Or_l; by apply IH1 | apply Spells_Or_r; by apply IH2].
  - split.
    + intros (s1 & s2 & -> & H1 & H2)%Spells_Then_inv.
      rewrite <- append_cons. constructor; [by apply IH | done].
    + intros (s1 & s2 & -> & H1 & H2)%Spells_Many_cons.
      constructor; [by apply IH | done].
Qed.

Lemma accepts_Spells (r : RegExp) (s : string) :
  accepts r s = true ↔ Spells r s.
Proof.
  revert r. induction s as [|c s IH]; intros r; simpl.
  - apply nullable_Spells.
  - rewrite IH. apply derivative_Spells.
Qed.

(** ** The shape of a NIP-05 address *)

(** The labels of a domain after the first, each behind its dot. *)
Fixpoint dotted (labels : list string) : string :=
  match labels with
  | [] => ""
  | label :: rest => "." +:+ label +:+ dotted rest
  end.

(** How many times a character occurs in a string. *)
Fixpoint occurrences (c : ascii) (s : string) : nat :=
  match s with
  | EmptyString => 0
  | String c' rest => (if Ascii.eqb c c' then 1 else 0) + occurrences c rest
  end.

Lemma concat_dotted (label : string) (labels : list string) :
  String.concat "." (label :: labels) = label +:+ dotted labels.
Proof.
  revert label. induction labels as [|next rest IH]; intros label.
  - simpl. by rewrite append_nil_r.
  - change (String.concat "." (label :: next :: rest))
      with (label +:+ "." +:+ String.concat "." (next :: rest)).
    by rewrite IH.
Qed.

Lemma Spells_Literal (c : ascii) (s : string) :
  Spells (Literal c) s ↔ s = String c "".
Proof.
  split.
  - intros (c' & -> & Hc)%Spells_OneOf_inv.
    by apply Ascii.eqb_eq in Hc as ->.
  - intros ->. constructor. apply Ascii.eqb_refl.
Qed.

Lemma Spells_Many_OneOf (member : ascii → bool) (s : string) :
  Spells (Many (OneOf member)) s ↔ every member s = true.
Proof.
  induction s as [|c s IH]; simpl.
  - split; [done|]. intros _. constructor.
  - split.
    + intros (s1 & s2 & -> & H1 & H2)%Spells_Many_cons.
      apply Spells_OneOf_inv in H1 as (c' & [= <- ->] & Hc).
      rewrite Hc. by apply IH.
    + intros [Hc Hs]%andb_true_iff.
      apply (Spells_Many_more (OneOf member) (String c "") s);
        [by constructor | by apply IH].
Qed.

Lemma Spells_Several_OneOf (member : ascii → bool) (s : string) :
  Spells (Several (OneOf member)) s ↔ s ≠ "" ∧ every member s = true.
Proof.
  split.
  - intros (s1 & s2 & -> & H1 & H2)%Spells_Then_inv.
    apply Spells_OneOf_inv in H1 as (c & -> & Hc).
    apply Spells_Many_OneOf in H2. split; [done|]. simpl. by rewrite Hc.
  - intros [Hne Hs]. destruct s as [|c s]; [done|].
    simpl in Hs. apply andb_true_iff in Hs as [Hc Hs].
    apply (Spells_Then (OneOf member) (Many (OneOf member)) (String c "") s);
      [by constructor | by apply Spells_Many_OneOf].
Qed.

Definition label_shaped (label : string) : Prop :=
  label ≠ "" ∧ every label_char label = true.

Lemma Spells_more_labels (s : string) :
  Spells (Many (Then (Literal ".") (Several (OneOf label_char)))) s
  ↔ ∃ labels, s = dotted labels ∧ Forall label_shaped labels.
Proof.
  split.
  - intros Hs.
    remember (Many (Then (Literal ".") (Several (OneOf label_char)))) as r
      eqn:Hr.
    induction Hs as [| | | | | |r' s1 s2 Hs1 _ Hs2 IH]; try done.
    + by exists [].
    + injection Hr as ->.
      destruct (IH eq_refl) as (labels & -> & Hlabels).
      apply Spells_Then_inv in Hs1 as (dot & label & -> & Hdot & Hlabel).
      apply Spells_Literal in Hdot as ->.
      apply Spells_Several_OneOf in Hlabel.
      exists (label :: labels). split; [|by constructor].
      simpl. by rewrite !append_assoc.
  - intros (labels & -> & Hlabels).
    induction Hlabels as [|label labels Hlabel _ IH]; [constructor|].
    cbn [dotted]. rewrite <- append_assoc.
    constructor; [|done].
    constructor; [by apply Spells_Literal | by apply Spells_Several_OneOf].
Qed.

Lemma isNip05Address_Spells (address : string) :
  isNip05Address address = true ↔
  ∃ (local : string) (labels : list string),
    address = local +:+ "@" +:+ String.concat "." labels
    ∧ local ≠ ""
    ∧ every local_part_char local = true
    ∧ labels ≠ []
    ∧ Forall label_shaped labels.
Proof.
  unfold isNip05Address. rewrite accepts_Spells. unfold nip05_pattern.
  split.
  - intros (local & s1 & -> & Hlocal & H1)%Spells_Then_inv.
    apply Spells_Then_inv in H1 as (at_sign & s2 & -> & Hat & H2).
    apply Spells_Then_inv in H2 as (label & s3 & -> & Hlabel & H3).
    apply Spells_Several_OneOf in Hlocal as [Hne Hlocal].
    apply Spells_Literal in Hat as ->.
    apply Spells_Several_OneOf in Hlabel.
    apply Spells_more_labels in H3 as (labels & -> & Hlabels).
    exists local, (label :: labels).
    rewrite concat_dotted. split_and!; try done. by constructor.
  - intros (local & labels & -> & Hne & Hlocal & Hlabels & Hall).
    destruct Hall as [|label labels Hlabel Hall]; [done|].
    rewrite concat_dotted.
    constructor; [by apply Spells_Several_OneOf|].
    constructor; [by apply Spells_Literal|].
    constructor; [by apply Spells_Several_OneOf|].
    apply Spells_more_labels. by exists labels.
Qed.

Lemma occurrences_append (c : ascii) (s1 s2 : string) :
  occurrences c (s1 +:+ s2) = occurrences c s1 + occurrences c s2.
Proof.
  induction s1 as [|c1 s1 IH]; [done|].
  rewrite append_cons. simpl. rewrite IH. lia.
Qed.

Lemma occurrences_every (member : ascii → bool) (c : ascii) (s : string) :
  member c = false → every member s = true → occurrences c s = 0.
Proof.
  intros Hc. induction s as [|c' s IH]; [done|]. simpl.
  intros [Hc' Hs]%andb_true_iff.
  destruct (Ascii.eqb_spec c c') as [->|_]; [congruence|]. by rewrite IH.
Qed.

Lemma occurrences_dotted (c : ascii) (labels : list string) :
  label_char c = false → c ≠ "."%char →
  Forall label_shaped labels → occurrences c (dotted labels) = 0.
Proof.
  intros Hc Hdot Hlabels.
  induction Hlabels as [|label labels [_ Hlabel] _ IH]; [done|].
  cbn [dotted]. rewrite !occurrences_append, IH.
  rewrite (occurrences_every label_char c label Hc Hlabel).
  simpl. by destruct (Ascii.eqb_spec c ".").
Qed.

(** ** The modal's state and [handleSubmit] (lines 12-79) *)

(** The argument of [saveSettings] (lines 67-71). *)
Record Settings : Type := {
  npub : json;
  npubOrnip05Address : string;
  publicRelays : json
}.

(** The three [useState] cells of the modal, whether the default action of
    the submit event being handled has been prevented, and the calls of
    [saveSettings], oldest first. *)
Record Modal : Type := {
  open : bool;
  address : string;
  error : option string;
  defaultPrevented : bool;
  saved : list Settings
}.

Definition Ui (A : Type) : Type := Modal → Completion A * Modal.

Global Instance Ui_ret : MRet Ui := λ A a m, (Normal a, m).
Global Instance Ui_bind : MBind Ui := λ A B f c m,
  match c m with
  | (Normal a, m') => f a m'
  | (Throw e, m') => (Throw e, m')
  | (Deferred e, m') => (Deferred e, m')
  end.

Definition setError (message : option string) : Ui unit :=
  λ m,
    (Normal (),
     {| open := open m; address := address m; error := message;
        defaultPrevented := defaultPrevented m; saved := saved m |}).

Definition setAddress (value : string) : Ui unit :=
  λ m,
    (Normal (),
     {| open := open m; address := value; error := error m;
        defaultPrevented := defaultPrevented m; saved := saved m |}).

(** [setOpen], with the effect of lines 24-26 that depends on [open]: when
    the cell changes, the render that follows runs [setError(null)]; when it
    does not change there is no render. *)
Definition setOpen (value : bool) : Ui unit :=
  λ m,
    if Bool.eqb (open m) value then (Normal (), m)
    else
      (Normal (),
       {| open := value; address := address m; error := None;
          defaultPrevented := defaultPrevented m; saved := saved m |}).

Definition preventDefault : Ui unit :=
  λ m,
    (Normal (),
     {| open := open m; address := address m; error := error m;
        defaultPrevented := true; saved := saved m |}).

Definition saveSettings (settings : Settings) : Ui unit :=
  λ m,
    (Normal (),
     {| open := open m; address := address m; error := error m;
        defaultPrevented := defaultPrevented m;
        saved := saved m ++ [settings] |}).

(** Lines 33-35. *)
Definition handleAddressChange (value : string) : Ui unit := setAddress value.

(** What lines 52-66 find.  They call [decodeNip05] and [fetchNip05Metadata]
    of [@/services/nostr], which are not among the sources, and read the
    metadata: a call or a read throws or the awaited promise rejects; or
    [metadata.names[localPart]] is falsy; or [metadata.relays[npub]] is
    falsy; or both are there, and [sanitizeRelays] has cleaned the
    relays. *)
Inductive Lookup : Type :=
  | LookupThrows (e : JsError)
  | NpubNotFound
  | RelaysNotFound
  | Found (npub : json) (publicRelays : json).

(** Where [handleSubmit] stands when it first yields: finished, or waiting
    for the metadata of the address it was submitted with. *)
Inductive Progress : Type :=
  | Finished
  | Awaiting (submitted : string).

(** Lines 37-51 and 74-78: [handleSubmit] up to its [await]. *)
Definition handleSubmit : Ui Progress :=
  λ m,
    let address := address m in
    (preventDefault;;
     let isNip05Address := isNip05Address address in
     let isNpubAddress := isNpubAddress address in
     if negb isNip05Address && negb isNpubAddress then
       setError (Some "Invalid address");;
       mret Finished
     else if isNip05Address then
       mret (Awaiting address)
     else
       setOpen false;;
       mret Finished) m.

(** Lines 53-78: [handleSubmit] from its [await] on, for the address it was
    submitted with. *)
Definition handleSubmit_resume (address : string) (found : Lookup) : Ui unit :=
  match found with
  | LookupThrows e => λ m, (Throw e, m)
  | NpubNotFound => setError (Some "Npub address not found")
  | RelaysNotFound => setError (Some "Relays not found")
  | Found npub publicRelays =>
      saveSettings {| npub := npub; npubOrnip05Address := address;
                      publicRelays := publicRelays |};;
      setOpen false
  end.

(** The modal when the form is shown. *)
Definition shown (address : string) (saved : list Settings) : Modal :=
  {| open := true; address := address; error := None;
     defaultPrevented := false; saved := saved |}.

(** What the user does to the modal other than submitting. *)
Inductive UserAction : Type :=
  | Types (value : string)
  | Cancels
  | Opens.

Definition act (a : UserAction) : Ui unit :=
  match a with
  | Types value => handleAddressChange value
  | Cancels => setOpen false
  | Opens => setOpen true
  end.

Fixpoint acts (actions : list UserAction) : Ui unit :=
  match actions with
  | [] => mret ()
  | a :: rest => act a;; acts rest
  end.

(** A submit, what the user does while the lookup is in flight, and the rest
    of the handler once the lookup has settled. *)
Definition submit (during : list UserAction) (found : Lookup) : Ui unit :=
  progress ← handleSubmit;
  match progress with
  | Finished => mret ()
  | Awaiting submitted =>
      acts during;;
      handleSubmit_resume submitted found
  end.

(** The settings that a submit of [address] saves. *)
Definition saves (address : string) (found : Lookup) : list Settings :=
  if isNip05Address address then
    match found with
    | Found npub publicRelays =>
        [{| npub := npub; npubOrnip05Address := address;
            publicRelays := publicRelays |}]
    | _ => []
    end
  else [].

(** X10. The addresses that [handleSubmit] takes for NIP-05 addresses are
    exactly those made of a local part that is not empty, over letters,
    digits and [.!#$%&'*+/=?^_`{|}~-], then [@], then one or more labels
    that are not empty, over letters, digits and [-], separated by single
    dots.  Such an address has exactly one [@]. *)
Theorem nip05_address_shape (address : string) :
  (isNip05Address address = true ↔
   ∃ (local : string) (labels : list string),
     address = local +:+ "@" +:+ String.concat "." labels
     ∧ local ≠ ""
     ∧ every local_part_char local = true
     ∧ labels ≠ []
     ∧ Forall label_shaped labels)
  ∧ (isNip05Address address = true → occurrences "@" address = 1).
Proof.
  split; [apply isNip05Address_Spells|].
  intros (local & labels & -> & _ & Hlocal & Hlabels & Hall)%isNip05Address_Spells.
  destruct Hall as [|label labels [_ Hlabel] Hall]; [done|].
  rewrite concat_dotted, !occurrences_append.
  rewrite (occurrences_every local_part_char "@" local eq_refl Hlocal).
  rewrite (occurrences_every label_char "@" label eq_refl Hlabel).
  by rewrite (occurrences_dotted "@" labels eq_refl).
Qed.

Lemma nip05_address_shape_witness :
  occurrences "@" "bob.smith+relay@nostr.example.com" = 1.
Proof.
  apply (proj2 (nip05_address_shape "bob.smith+relay@nostr.example.com")).
  reflexivity.
Defined.

Lemma act_saved (a : UserAction) (m : Modal) :
  ∃ m', act a m = (Normal (), m') ∧ saved m' = saved m.
Proof.
  destruct a as [value| |]; cbn [act handleAddressChange];
    unfold setAddress, setOpen; try destruct (Bool.eqb _ _); eauto.
Qed.

Lemma acts_saved (actions : list UserAction) (m : Modal) :
  ∃ m', acts actions m = (Normal (), m') ∧ saved m' = saved m.
Proof.
  revert m. induction actions as [|a rest IH]; intros m; [by exists m|].
  destruct (act_saved a m) as (m1 & Ha & Hsaved1).
  destruct (IH m1) as (m2 & Hrest & Hsaved2).
  exists m2. split; [|congruence].
  change (acts (a :: rest) m) with
    (match act a m with
     | (Normal _, m') => acts rest m'
     | (Throw e, m') => (Throw e, m')
     | (Deferred e, m') => (Deferred e, m')
     end).
  by rewrite Ha.
Qed.

Definition prevented (m : Modal) : Modal :=
  {| open := open m; address := address m; error := error m;
     defaultPrevented := true; saved := saved m |}.

Lemma handleSubmit_cases (m : Modal) :
  handleSubmit m =
  if isNip05Address (address m) then
    (Normal (Awaiting (address m)), prevented m)
  else if isNpubAddress (address m) then
    (Normal Finished,
     {| open := false; address := address m;
        error := if open m then None else error m;
        defaultPrevented := true; saved := saved m |})
  else
    (Normal Finished,
     {| open := open m; address := address m;
        error := Some "Invalid address";
        defaultPrevented := true; saved := saved m |}).
Proof.
  unfold handleSubmit, mbind, mret, Ui_bind, Ui_ret, preventDefault.
  destruct (isNip05Address (address m)), (isNpubAddress (address m));
    try done.
  unfold setOpen. cbn. by destruct m as [[] ? ? ? ?].
Qed.

(** X11. An address that is not a NIP-05 address is never looked up and
    never saved.  If it does not start with [npub] the handler shows
    ["Invalid address"] and leaves the modal as open as it was; if it does,
    the handler only closes the modal, the error going with it: an npub
    address is accepted and nothing is synced. *)
Theorem submit_without_lookup (m : Modal) :
  isNip05Address (address m) = false →
  (isNpubAddress (address m) = false →
   handleSubmit m
   = (Normal Finished,
      {| open := open m; address := address m;
         error := Some "Invalid address";
         defaultPrevented := true; saved := saved m |}))
  ∧ (isNpubAddress (address m) = true →
     handleSubmit m
     = (Normal Finished,
        {| open := false; address := address m;
           error := if open m then None else error m;
           defaultPrevented := true; saved := saved m |})).
Proof.
  intros Hnip05. rewrite handleSubmit_cases, Hnip05.
  split; by intros ->.
Qed.

(** The empty address, and an npub address. *)
Lemma submit_without_lookup_witness :
  error (handleSubmit (shown "" [])).2 = Some "Invalid address"
  ∧ open (handleSubmit (shown "" [])).2 = true
  ∧ handleSubmit (shown "npub1qqqsyqcyq5rqwzqf" [])
    = (Normal Finished,
       {| open := false; address := "npub1qqqsyqcyq5rqwzqf"; error := None;
          defaultPrevented := true; saved := [] |}).
Proof.
  split_and!.
  - by rewrite (proj1 (submit_without_lookup (shown "" []) eq_refl) eq_refl).
  - by rewrite (proj1 (submit_without_lookup (shown "" []) eq_refl) eq_refl).
  - by rewrite (proj2 (submit_without_lookup
      (shown "npub1qqqsyqcyq5rqwzqf" []) eq_refl) eq_refl).
Defined.

(** X12. A submit calls [saveSettings] exactly when the address is a NIP-05
    address and the lookup finds both the npub and its relays, once, with
    the address as it was submitted, whatever the user types, closes or
    opens while the lookup is in flight.  A submit throws exactly when the
    address is a NIP-05 address and the lookup throws, and then the error
    message is the one the modal had: the failure is not shown. *)
Theorem submit_saves_what_was_found
    (during : list UserAction) (found : Lookup) (m : Modal) :
  saved (submit during found m).2 = saved m ++ saves (address m) found
  ∧ (∀ e, (submit during found m).1 = Throw e ↔
          isNip05Address (address m) = true ∧ found = LookupThrows e)
  ∧ (∀ e, (submit [] found m).1 = Throw e →
          error (submit [] found m).2 = error m
          ∧ open (submit [] found m).2 = open m).
Proof.
  unfold submit, saves, mbind, Ui_bind. rewrite handleSubmit_cases.
  destruct (isNip05Address (address m)) eqn:Hnip05.
  - destruct (acts_saved during (prevented m)) as (m1 & Hacts & Hsaved).
    rewrite Hacts. cbn [acts mret Ui_ret].
    destruct found as [e'| | |npub' relays']; cbn.
    + rewrite Hsaved, app_nil_r. split_and!; [done| |done].
      intros e. split; [by intros [= ->] | by intros [_ [= ->]]].
    + rewrite Hsaved, app_nil_r. split_and!; [done| |done].
      intros e. split; [done | by intros [_ ?]].
    + rewrite Hsaved, app_nil_r. split_and!; [done| |done].
      intros e. split; [done | by intros [_ ?]].
    + unfold setOpen, saveSettings, mbind, Ui_bind. cbn.
      split_and!.
      * destruct (Bool.eqb (open m1) false); cbn; by rewrite Hsaved.
      * intros e. split; [|by intros [_ ?]].
        by destruct (Bool.eqb (open m1) false).
      * intros e. by destruct (Bool.eqb (open m) false).
  - destruct (isNpubAddress (address m)); cbn; rewrite app_nil_r;
      (split_and!; [done| |done]); intros e; split; [done|by intros [? _]|done|by intros [? _]].
Qed.

(** The user clears the field and cancels while the relays of
    [bob@example.com] are being fetched. *)
Lemma submit_saves_what_was_found_witness :
  saved
    (submit [Types ""; Cancels]
       (Found (JString "npub1bob") (JArray [JString "wss://relay.example"]))
       (shown "bob@example.com" [])).2
  = [{| npub := JString "npub1bob";
        npubOrnip05Address := "bob@example.com";
        publicRelays := JArray [JString "wss://relay.example"] |}].
Proof.
  rewrite (proj1 (submit_saves_what_was_found [Types ""; Cancels]
    (Found (JString "npub1bob") (JArray [JString "wss://relay.example"]))
    (shown "bob@example.com" []))).
  reflexivity.
Defined.
